(** * HLS stream proxy worker (src/worker.js): a shallow embedding

    The worker is a single JavaScript module.  Its strings are sequences of
    UTF-16 code units, modelled as [list N]; exceptions are modelled with
    [option] (for the pure string helpers) and with an explicit error type
    (for the handlers); the session [Map], the clock and the upstream
    [fetch] are passed explicitly, and every handler returns the effects it
    performed next to its response. *)

From Stdlib Require Import ZArith NArith Ascii String DecimalString Floats.
From Equations Require Import Equations.
From stdpp Require Import gmap list option.

Local Open Scope N_scope.

(** ** JavaScript strings *)

Abbreviation jsstring := (list N).

Fixpoint js (s : string) : jsstring :=
  match s with
  | EmptyString => []
  | String a s' => N_of_ascii a :: js s'
  end.
Arguments js _%_string.

Definition ch (a : ascii) : N := N_of_ascii a.
Arguments ch _%_char.

(** [a === b] on strings. *)
Definition str_eqb (a b : jsstring) : bool := bool_decide (a = b).

Fixpoint span (p : N → bool) (s : jsstring) : jsstring * jsstring :=
  match s with
  | c :: s' =>
      if p c then let '(a, b) := span p s' in (c :: a, b) else ([], s)
  | [] => ([], [])
  end.

(** The text after the prefix [p], when [s] starts with [p]. *)
Fixpoint strip_prefix (p s : jsstring) : option jsstring :=
  match p, s with
  | [], _ => Some s
  | a :: p', b :: s' => if a =? b then strip_prefix p' s' else None
  | _ :: _, [] => None
  end.

(** [s.startsWith(p)], [s.endsWith(p)], [s.includes(p)]. *)
Definition startsWith (p s : jsstring) : bool :=
  match strip_prefix p s with Some _ => true | None => false end.

Definition endsWith (p s : jsstring) : bool := startsWith (rev p) (rev s).

Fixpoint includes (p s : jsstring) : bool :=
  startsWith p s || match s with [] => false | _ :: s' => includes p s' end.

(** [s.lastIndexOf(p)]: the largest index at which [p] occurs, [None] for
    JavaScript's [-1]. *)
Fixpoint lastIndexOf (p s : jsstring) : option nat :=
  match s with
  | [] => if startsWith p [] then Some 0%nat else None
  | _ :: s' =>
      match lastIndexOf p s' with
      | Some j => Some (S j)
      | None => if startsWith p s then Some 0%nat else None
      end
  end.

(** [s.substring(0, e)] where [e] is an index or [-1]: a negative end is
    clamped to 0, an end past the string to its length. *)
Definition substring0 (e : option nat) (s : jsstring) : jsstring :=
  match e with
  | Some n => take n s
  | None => []
  end.

(** The parts of [s] between the code units that satisfy [p]: one part
    more than there are separators. *)
Fixpoint split_by (p : N → bool) (s : jsstring) : list jsstring :=
  match s with
  | [] => [[]]
  | c :: s' =>
      if p c then [] :: split_by p s'
      else match split_by p s' with
           | l :: ls => (c :: l) :: ls
           | [] => [[c]]
           end
  end.

(** [s.split(sep)] for a separator of one code unit. *)
Definition split (sep : N) (s : jsstring) : list jsstring :=
  split_by (λ c, c =? sep) s.

(** [parts.pop()] on the result of a split, which is never empty. *)
Definition pop (parts : list jsstring) : jsstring := List.last parts [].

(** [parts.filter(Boolean)]: the empty string is the only falsy string. *)
Definition filter_Boolean (parts : list jsstring) : list jsstring :=
  List.filter (λ p, negb (str_eqb p [])) parts.

(** [s.replace(p, '')] with a string pattern: the first occurrence only. *)
Fixpoint remove_first (p s : jsstring) : jsstring :=
  match strip_prefix p s with
  | Some rest => rest
  | None => match s with [] => [] | c :: s' => c :: remove_first p s' end
  end.

(** [s.replace(/=/g, '')]. *)
Definition remove_equals (s : jsstring) : jsstring :=
  List.filter (λ c, negb (c =? ch "=")) s.

(** Decimal rendering of a number inside a template literal. *)
Definition decimal (n : N) : jsstring :=
  js (NilZero.string_of_uint (N.to_uint n)).

(** ** btoa and atob

    Both are platform functions.  [btoa] is RFC 4648 base64 with padding and
    raises [InvalidCharacterError] on a code unit above 0xFF; [atob] is the
    HTML standard's forgiving-base64 decode, which raises the same error on
    failure.  [None] stands for the exception. *)
Module Base64.

Definition digit_char (v : N) : N :=
  if v <? 26 then 65 + v
  else if v <? 52 then 71 + v
  else if v <? 62 then v - 4
  else if v =? 62 then 43
  else 47.

Definition char_digit (c : N) : option N :=
  if (65 <=? c) && (c <=? 90) then Some (c - 65)
  else if (97 <=? c) && (c <=? 122) then Some (c - 71)
  else if (48 <=? c) && (c <=? 57) then Some (c + 4)
  else if c =? 43 then Some 62
  else if c =? 47 then Some 63
  else None.

Definition pad : N := 61.

Fixpoint encode_bytes (s : jsstring) : jsstring :=
  match s with
  | a :: b :: c :: rest =>
      digit_char (N.shiftr a 2)
      :: digit_char (N.lor (N.shiftl (N.land a 3) 4) (N.shiftr b 4))
      :: digit_char (N.lor (N.shiftl (N.land b 15) 2) (N.shiftr c 6))
      :: digit_char (N.land c 63)
      :: encode_bytes rest
  | [a; b] =>
      [digit_char (N.shiftr a 2);
       digit_char (N.lor (N.shiftl (N.land a 3) 4) (N.shiftr b 4));
       digit_char (N.shiftl (N.land b 15) 2);
       pad]
  | [a] =>
      [digit_char (N.shiftr a 2); digit_char (N.shiftl (N.land a 3) 4); pad; pad]
  | [] => []
  end.

Definition btoa (s : jsstring) : option jsstring :=
  if forallb (λ c, c <=? 255) s then Some (encode_bytes s) else None.

(** ASCII whitespace, which forgiving-base64 decode removes first. *)
Definition is_ascii_whitespace (c : N) : bool :=
  (c =? 9) || (c =? 10) || (c =? 12) || (c =? 13) || (c =? 32).

(** "If data ends with one or two U+003D (=) code points, then remove
    them from data". *)
Definition strip_padding (d : jsstring) : jsstring :=
  match rev d with
  | 61 :: 61 :: r => rev r
  | 61 :: r => rev r
  | _ => d
  end.

(** Every four digits give three bytes; two left-over digits give one
    byte and three give two, the unused low bits being discarded. *)
Fixpoint decode_digits (v : list N) : jsstring :=
  match v with
  | a :: b :: c :: d :: rest =>
      N.lor (N.shiftl a 2) (N.shiftr b 4)
      :: N.lor (N.shiftl (N.land b 15) 4) (N.shiftr c 2)
      :: N.lor (N.shiftl (N.land c 3) 6) d
      :: decode_digits rest
  | [a; b; c] =>
      [N.lor (N.shiftl a 2) (N.shiftr b 4);
       N.lor (N.shiftl (N.land b 15) 4) (N.shiftr c 2)]
  | [a; b] => [N.lor (N.shiftl a 2) (N.shiftr b 4)]
  | _ => []
  end.

Definition atob (data : jsstring) : option jsstring :=
  let d1 := List.filter (λ c, negb (is_ascii_whitespace c)) data in
  let d2 :=
    if (length d1 mod 4 =? 0)%nat then strip_padding d1 else d1 in
  if (length d2 mod 4 =? 1)%nat then None
  else digits ← mapM char_digit d2; Some (decode_digits digits).

End Base64.

(** ** The addressing codec, as the worker writes it inline *)

(** [btoa(s).replace(/=/g, '')] (lines 189, 190, 199, 200). *)
Definition encode (s : jsstring) : option jsstring :=
  remove_equals <$> Base64.btoa s.

(** [atob(`${token}==`)] (lines 248, 249). *)
Definition decode (token : jsstring) : option jsstring :=
  Base64.atob (token ++ js "==").

Example encode_unknown : encode (js "unknown") = Some (js "dW5rbm93bg").
Proof. reflexivity. Qed.
Example decode_unknown : decode (js "dW5rbm93bg") = Some (js "unknown").
Proof. reflexivity. Qed.
Example encode_1080p : encode (js "1080p") = Some (js "MTA4MHA").
Proof. reflexivity. Qed.
Example decode_1080p : decode (js "MTA4MHA") = None.
Proof. reflexivity. Qed.
Example encode_seg : encode (js "seg001.ts") = Some (js "c2VnMDAxLnRz").
Proof. reflexivity. Qed.
Example decode_seg : decode (js "c2VnMDAxLnRz") = None.
Proof. reflexivity. Qed.
Example encode_index : encode (js "index.m3u8") = Some (js "aW5kZXgubTN1OA").
Proof. reflexivity. Qed.
Example atob_padded : Base64.atob (js "MTA4MHA=") = Some (js "1080p").
Proof. reflexivity. Qed.

(** ** The two reference patterns of the manifest rewriter

    [/^(?!#)(https?:\/\/[^\s]+|[^/\s][^\s]*\.m3u8)/gm] for a master playlist
    and the same with [\.ts] for a media playlist.  Neither has the [u] flag,
    so they work on code units. *)

(** LineTerminator: what [^] looks behind for under the [m] flag. *)
Definition is_line_terminator (c : N) : bool :=
  (c =? 10) || (c =? 13) || (c =? 8232) || (c =? 8233).

(** [\s]: WhiteSpace and LineTerminator. *)
Definition is_space (c : N) : bool :=
  (c =? 9) || (c =? 11) || (c =? 12) || (c =? 32) || (c =? 160)
  || (c =? 5760) || ((8192 <=? c) && (c <=? 8202)) || (c =? 8239)
  || (c =? 8287) || (c =? 12288) || (c =? 65279) || is_line_terminator c.

Definition not_space (c : N) : bool := negb (is_space c).

(** [\d]. *)
Definition is_digit (c : N) : bool := (48 <=? c) && (c <=? 57).

(** [https?:\/\/[^\s]+], tried at the head of [s]: the length of the
    match.  The greedy [s?] never needs to give its [s] back (the next
    character would have to be a colon), and the greedy [[^\s]+] is the last
    item, so it takes the whole run. *)
Definition match_absolute (s : jsstring) : option nat :=
  s1 ← strip_prefix (js "http") s;
  let s2 := match s1 with c :: t => if c =? ch "s" then t else s1 | [] => s1 end in
  s3 ← strip_prefix (js "://") s2;
  match (span not_space s3).1 with
  | [] => None
  | _ :: _ => Some (length s - length (span not_space s3).2)%nat
  end.

(** [[^/\s][^\s]*EXT] where EXT is [\.m3u8] or [\.ts], tried at the head of
    [s]: the length of the match.  The greedy [[^\s]*] gives characters back
    until EXT follows, so the match ends with the last EXT of the run of
    non-space characters. *)
Definition match_relative (ext s : jsstring) : option nat :=
  match s with
  | c :: s' =>
      if (c =? ch "/") || is_space c then None
      else j ← lastIndexOf ext (span not_space s').1; Some (S (j + length ext))
  | [] => None
  end.

(** [(?!#)(A|B)] tried at the head of [s]: the look-ahead, then the
    alternatives in order; the match and the text after it. *)
Definition match_reference (ext s : jsstring) : option (jsstring * jsstring) :=
  match s with
  | c :: _ =>
      if c =? ch "#" then None
      else
        n ← match match_absolute s with
            | Some n => Some n
            | None => match_relative ext s
            end;
        Some (take n s, drop n s)
  | [] => None
  end.

(** [^] under the [m] flag: at the start of the input or right after a
    LineTerminator; [prev] is the code unit before the current position. *)
Definition at_line_start (prev : option N) : bool :=
  match prev with
  | None => true
  | Some c => is_line_terminator c
  end.

Lemma span_app (p : N → bool) (s : jsstring) : (span p s).1 ++ (span p s).2 = s.
Proof.
  induction s as [|c s IH]; simpl; [done|].
  destruct (p c); [|done]. destruct (span p s) as [a b]; simpl in *. by rewrite IH.
Qed.

Lemma strip_prefix_app (p s t : jsstring) : strip_prefix p s = Some t → s = p ++ t.
Proof.
  revert s. induction p as [|a p IH]; intros [|b s]; simpl; try congruence.
  destruct (N.eqb_spec a b); [|done]. intros H. subst. f_equal. by apply IH.
Qed.

Lemma lastIndexOf_bound (p s : jsstring) (j : nat) :
  lastIndexOf p s = Some j → (j + length p ≤ length s)%nat.
Proof.
  revert j. induction s as [|c s IH]; simpl; intros j.
  - unfold startsWith. destruct p; simpl; [|done]. intros [= <-]. simpl. lia.
  - destruct (lastIndexOf p s) as [k|].
    + intros [= <-]. specialize (IH k eq_refl). lia.
    + unfold startsWith. destruct (strip_prefix p (c :: s)) as [t|] eqn:E; [|done].
      intros [= <-]. apply strip_prefix_app in E.
      apply (f_equal length) in E. rewrite length_app in E. simpl in *. lia.
Qed.

Lemma match_absolute_bound (s : jsstring) (n : nat) :
  match_absolute s = Some n → (0 < n ≤ length s)%nat.
Proof.
  unfold match_absolute.
  destruct (strip_prefix (js "http") s) as [s1|] eqn:E1; [|done].
  cbn [mbind option_bind].
  set (s2 := match s1 with [] => s1 | d :: t => if d =? ch "s" then t else s1 end).
  assert (length s2 ≤ length s1)%nat as Hs2.
  { subst s2. destruct s1 as [|d t]; [done|]. destruct (d =? ch "s"); simpl; lia. }
  destruct (strip_prefix (js "://") s2) as [s3|] eqn:E3; [|done].
  cbn [mbind option_bind].
  pose proof (span_app not_space s3) as Hs.
  destruct (span not_space s3) as [run rest]. cbn [fst snd] in *.
  destruct run as [|r0 run]; [done|]. intros [= <-].
  apply strip_prefix_app in E3. apply strip_prefix_app in E1.
  apply (f_equal length) in E1, E3, Hs. rewrite !length_app in *.
  change (length (js "http")) with 4%nat in E1. cbn [length] in *. lia.
Qed.

Lemma match_relative_bound (ext s : jsstring) (n : nat) :
  match_relative ext s = Some n → (0 < n ≤ length s)%nat.
Proof.
  unfold match_relative. destruct s as [|c s']; [done|].
  destruct ((c =? ch "/") || is_space c); [done|].
  destruct (lastIndexOf ext (span not_space s').1) as [j|] eqn:Ej; [|done].
  cbn [mbind option_bind]. intros [= <-]. apply lastIndexOf_bound in Ej.
  pose proof (span_app not_space s') as Hs. apply (f_equal length) in Hs.
  rewrite length_app in Hs. simpl. lia.
Qed.

(** A match is a non-empty prefix of the text it was tried on. *)
Lemma match_reference_split (ext s m rest : jsstring) :
  match_reference ext s = Some (m, rest) →
  s = m ++ rest ∧ (0 < length m ≤ length s)%nat.
Proof.
  unfold match_reference. destruct s as [|c s']; [done|].
  destruct (c =? ch "#"); [done|].
  set (alt := match match_absolute (c :: s') with
              | Some n => Some n
              | None => match_relative ext (c :: s')
              end).
  assert (∀ n, alt = Some n → (0 < n ≤ length (c :: s'))%nat) as Hb.
  { subst alt. intros n. destruct (match_absolute (c :: s')) as [k|] eqn:Ha.
    - intros [= <-]. by apply match_absolute_bound.
    - apply match_relative_bound. }
  destruct alt as [n|]; [|done]. cbn [mbind option_bind]. intros [= <- <-].
  specialize (Hb n eq_refl). rewrite take_drop, length_take. split; [done|lia].
Qed.

Definition inspect {A : Type} (x : A) : {y : A | x = y} := exist _ x eq_refl.

Section Replace.
Local Notation "x 'eqn:' p" := (exist _ x p) (only parsing, at level 20).

(** [text.replace(re, callback)] for a global pattern of the shape above:
    the scan tries the pattern at each position in turn; a match is replaced
    by what the callback returns for it and the scan resumes right after the
    match; every other code unit is copied.  An exception of the callback
    ([None]) aborts the whole call. *)
Equations? replace_references (ext : jsstring) (callback : jsstring → option jsstring)
    (prev : option N) (s : jsstring) : option jsstring by wf (length s) lt :=
  replace_references ext callback prev [] := Some [];
  replace_references ext callback prev (c :: s')
    with inspect (if at_line_start prev then match_reference ext (c :: s') else None) := {
    | Some (m, rest) eqn: Hm :=
        r ← callback m;
        out ← replace_references ext callback (list.last m) rest;
        Some (r ++ out)
    | None eqn: _ :=
        out ← replace_references ext callback (Some c) s';
        Some (c :: out) }.
Proof.
  all: try (simpl; lia).
  destruct (at_line_start prev); [|done].
  apply match_reference_split in Hm as [Hs Hl].
  apply (f_equal length) in Hs. rewrite length_app in Hs. simpl in *. lia.
Qed.
End Replace.

(** ** The replacement callbacks of proxyM3U8Playlist *)

(** [/\/(\d+p?|low|med|high)\//] tried right after its leading slash: the
    captured group.  [\d+] takes the whole run of digits and [p?] an
    optional [p]; giving any of them back cannot make the closing slash
    match. *)
Definition quality_group (s : jsstring) : option jsstring :=
  let '(digits, t) := span is_digit s in
  match digits with
  | _ :: _ =>
      match t with
      | c :: t' =>
          if c =? ch "p" then
            if startsWith (js "/") t' then Some (digits ++ js "p") else None
          else if c =? ch "/" then Some digits
          else None
      | [] => None
      end
  | [] =>
      if startsWith (js "low/") s then Some (js "low")
      else if startsWith (js "med/") s then Some (js "med")
      else if startsWith (js "high/") s then Some (js "high")
      else None
  end.

(** [match.match(/\/(\d+p?|low|med|high)\//)]: the leftmost match's group. *)
Fixpoint quality_match (s : jsstring) : option jsstring :=
  match s with
  | [] => None
  | c :: s' =>
      match (if c =? ch "/" then quality_group s' else None) with
      | Some q => Some q
      | None => quality_match s'
      end
  end.

Definition detectedQuality (m : jsstring) : jsstring :=
  match quality_match m with
  | Some q => q
  | None => js "unknown"
  end.

(** Lines 185-193. *)
Definition master_callback (origin sessionPath m : jsstring) : option jsstring :=
  qualityB64 ← encode (detectedQuality m);
  filenameB64 ← encode (js "index.m3u8");
  Some (origin ++ js "/file2/" ++ sessionPath ++ js "/" ++ qualityB64
        ++ js "/" ++ filenameB64 ++ js ".m3u8").

(** Lines 196-203. *)
Definition media_callback (origin sessionPath quality m : jsstring) : option jsstring :=
  let segmentName := pop (split (ch "/") m) in
  segmentB64 ← encode segmentName;
  qualityB64 ← encode quality;
  Some (origin ++ js "/file2/" ++ sessionPath ++ js "/" ++ qualityB64
        ++ js "/" ++ segmentB64).

(** Lines 180-204: the rewritten playlist, [None] when a callback raised. *)
Definition rewritePlaylist (origin sessionPath filename quality originalPlaylist : jsstring)
    : option jsstring :=
  if str_eqb filename (js "master.m3u8") then
    replace_references (js ".m3u8") (master_callback origin sessionPath) None originalPlaylist
  else
    replace_references (js ".ts") (media_callback origin sessionPath quality) None
      originalPlaylist.

(** Line feed, for writing playlists down. *)
Definition LF : jsstring := [10].

Example rewrite_master_example (origin S : jsstring) :
  rewritePlaylist origin S (js "master.m3u8") (js "q")
    (js "#EXTM3U" ++ LF ++ js "https://cdn.example/v/1080p/index.m3u8" ++ LF
     ++ js "low/index.m3u8" ++ LF)
  = Some (js "#EXTM3U" ++ LF
          ++ (origin ++ js "/file2/" ++ S ++ js "/MTA4MHA/aW5kZXgubTN1OA.m3u8") ++ LF
          ++ (origin ++ js "/file2/" ++ S ++ js "/dW5rbm93bg/aW5kZXgubTN1OA.m3u8") ++ LF).
Proof. vm_compute. reflexivity. Qed.

Example rewrite_media_example (origin S : jsstring) :
  rewritePlaylist origin S (js "index.m3u8") (js "720p")
    (js "#EXTINF:4.0," ++ LF ++ js "https://cdn.example/v/720p/seg001.ts?t=1" ++ LF
     ++ js "  seg002.ts" ++ LF ++ js "/v/seg003.ts" ++ LF ++ js "a/b/seg004.ts junk" ++ LF)
  = Some (js "#EXTINF:4.0," ++ LF
          ++ (origin ++ js "/file2/" ++ S ++ js "/NzIwcA/c2VnMDAxLnRzP3Q9MQ") ++ LF
          ++ js "  seg002.ts" ++ LF ++ js "/v/seg003.ts" ++ LF
          ++ (origin ++ js "/file2/" ++ S ++ js "/NzIwcA/c2VnMDA0LnRz") ++ js " junk" ++ LF).
Proof. vm_compute. reflexivity. Qed.

(** ** Values, sessions, responses and effects *)

(** What [request.json()] can resolve to. *)
#[local] Unset Elimination Schemes.
Inductive json : Type :=
| JNull
| JBool (b : bool)
| JNum (x : float)
| JStr (s : jsstring)
| JArr (items : list json)
| JObj (fields : list (jsstring * json)).
#[local] Set Elimination Schemes.

(** A property read in a destructuring pattern; [None] is [undefined].
    [JSON.parse] keeps the last of several equal keys. *)
Fixpoint own_property (name : jsstring) (fields : list (jsstring * json)) : option json :=
  match fields with
  | [] => None
  | (k, v) :: fields' =>
      match own_property name fields' with
      | Some v' => Some v'
      | None => if str_eqb k name then Some v else None
      end
  end.

Definition get_property (v : json) (name : jsstring) : option json :=
  match v with
  | JObj fields => own_property name fields
  | _ => None
  end.

(** The operand of [!x]: [undefined], [null], [false], [0], [NaN] and the
    empty string are falsy. *)
Definition truthy (v : option json) : bool :=
  match v with
  | None | Some JNull => false
  | Some (JBool b) => b
  | Some (JNum x) => negb (PrimFloat.eqb x 0) && PrimFloat.eqb x x
  | Some (JStr s) => negb (str_eqb s [])
  | Some (JArr _) | Some (JObj _) => true
  end.

(** The exceptions the worker can catch. *)
Inductive error : Type :=
| InvalidCharacterError          (* btoa, atob *)
| TypeError                      (* null destructured, a missing method called *)
| SyntaxError                    (* request.json() on a body that is not JSON *)
| FetchError (message : jsstring)  (* fetch rejected *)
| Error (message : jsstring).      (* throw new Error(message) *)

(** A value inside a [JSON.stringify]ed body. *)
Inductive field : Type :=
| FValue (v : json)
| FString (s : jsstring)
| FMessage (e : error)           (* error.message *)
| FIsoString (t : Z).            (* new Date().toISOString() at time t *)

Inductive body : Type :=
| BodyNull
| BodyText (text : jsstring)
| BodyJson (fields : list (jsstring * field))
| BodyStream (bytes : list N).

(** A [Response] with the headers the worker itself sets on it. *)
Record response : Type := Response {
  status : N;
  statusText : jsstring;
  headers : list (jsstring * jsstring);
  resp_body : body;
}.

Record session : Type := Session {
  originalUrl : json;
  metadata : json;
  timestamp : Z;
  expiresAt : Z;
}.

(** The string-keyed part of [sessionStore]: [getSession] is only ever
    called with a path segment, so an entry stored under a key that is not a
    string can never be read back. *)
Abbreviation store := (gmap jsstring session).

(** What a handler did to the outside world, in order. *)
Inductive effect : Type :=
| StoreGet (key : jsstring)
| StoreDelete (key : jsstring)
| StoreSet (key : json)
| Fetch (target : json).

(** What the upstream [fetch] resolves to. *)
Record upstream_response : Type := UpstreamResponse {
  up_status : N;
  up_statusText : jsstring;
  up_bytes : list N;     (* response.body *)
  up_text : jsstring;    (* await response.text() *)
}.

Definition ok (r : upstream_response) : bool :=
  (200 <=? up_status r) && (up_status r <=? 299).

(** The environment of one request: the clock and the upstream origin. *)
Record env : Type := Env {
  now : Z;
  upstream : json → error + upstream_response;
}.

Definition is_fetch (e : effect) : bool :=
  match e with Fetch _ => true | _ => false end.

Definition is_store_access (e : effect) : bool :=
  match e with Fetch _ => false | _ => true end.

(** ** Session management (lines 11-31) *)

Definition storeSession (sessions : store) (t : Z) (sessionId originalUrl : json)
    (metadata : option json) : store :=
  match sessionId with
  | JStr key =>
      <[key := {| originalUrl := originalUrl;
                  metadata := default (JObj []) metadata;
                  timestamp := t;
                  expiresAt := (t + 24 * 60 * 60 * 1000)%Z |}]> sessions
  | _ => sessions
  end.

Definition getSession (sessions : store) (t : Z) (sessionId : jsstring)
    : option session * store * list effect :=
  match sessions !! sessionId with
  | None => (None, sessions, [StoreGet sessionId])
  | Some s =>
      if negb (expiresAt s =? 0)%Z && (expiresAt s <? t)%Z
      then (None, delete sessionId sessions, [StoreGet sessionId; StoreDelete sessionId])
      else (Some s, sessions, [StoreGet sessionId])
  end.

(** ** CORS headers (lines 34-48) *)

Definition corsHeaders : list (jsstring * jsstring) :=
  [(js "Access-Control-Allow-Origin", js "*");
   (js "Access-Control-Allow-Methods", js "GET, POST, PUT, DELETE, OPTIONS, HEAD");
   (js "Access-Control-Allow-Headers",
    js "Content-Type, Authorization, Range, Accept, Origin, X-Requested-With");
   (js "Access-Control-Expose-Headers", js "Content-Length, Content-Range, Accept-Ranges");
   (js "Access-Control-Max-Age", js "86400")].

(** [headers.set(key, value)]. *)
Fixpoint headers_set (key value : jsstring) (hs : list (jsstring * jsstring))
    : list (jsstring * jsstring) :=
  match hs with
  | [] => [(key, value)]
  | (k, v) :: hs' =>
      if str_eqb k key then (k, value) :: hs' else (k, v) :: headers_set key value hs'
  end.

Definition addCorsHeaders (r : response) : response :=
  {| status := status r;
     statusText := statusText r;
     headers := fold_left (λ hs kv, headers_set kv.1 kv.2 hs) corsHeaders (headers r);
     resp_body := resp_body r |}.

Definition json_headers : list (jsstring * jsstring) :=
  [(js "Content-Type", js "application/json")].

Definition json_response (code : N) (fields : list (jsstring * field)) : response :=
  addCorsHeaders (Response code [] json_headers (BodyJson fields)).

Definition text_response (code : N) (text : jsstring) : response :=
  addCorsHeaders (Response code [] [] (BodyText text)).

(** What a handler returns: its response, the store it leaves behind and
    the effects it performed. *)
Record outcome : Type := Outcome {
  out_response : response;
  out_store : store;
  out_effects : list effect;
}.

(** ** handleStoreSession (lines 51-99) *)

Definition invalid_json_response : response :=
  json_response 400 [(js "error", FString (js "Invalid JSON payload"))].

Definition handleStoreSession (e : env) (sessions : store) (method : jsstring)
    (payload : option json) : outcome :=
  if negb (str_eqb method (js "POST")) then
    Outcome (text_response 405 (js "Method not allowed")) sessions []
  else
    match payload with
    | None => Outcome invalid_json_response sessions []
    | Some JNull => Outcome invalid_json_response sessions []
    | Some v =>
        let sessionId := get_property v (js "sessionId") in
        let originalUrl := get_property v (js "originalUrl") in
        let metadata := get_property v (js "metadata") in
        if negb (truthy sessionId) || negb (truthy originalUrl) then
          Outcome
            (json_response 400
               [(js "error", FString (js "sessionId and originalUrl are required"))])
            sessions []
        else
          match sessionId, originalUrl with
          | Some sid, Some url =>
              Outcome
                (json_response 200
                   [(js "success", FValue (JBool true)); (js "sessionId", FValue sid)])
                (storeSession sessions (now e) sid url metadata)
                [StoreSet sid]
          | _, _ => Outcome invalid_json_response sessions []  (* undefined is falsy *)
          end
    end.

(** ** proxyVideoSegment (lines 102-148) *)

(** [originalUrl.substring(0, originalUrl.lastIndexOf('/'))]; calling
    [substring] on a value that is not a string raises. *)
Definition baseUrl (originalUrl : json) : error + jsstring :=
  match originalUrl with
  | JStr u => inr (substring0 (lastIndexOf (js "/") u) u)
  | _ => inl TypeError
  end.

Definition segment_error (filename : jsstring) (err : error) : response :=
  json_response 404
    [(js "error", FString (js "Segment not available"));
     (js "filename", FString filename);
     (js "originalError", FMessage err)].

Definition proxyVideoSegment (e : env) (originalUrl : json) (filename : jsstring)
    : response * list effect :=
  match baseUrl originalUrl with
  | inl err => (segment_error filename err, [])
  | inr base =>
      let segmentUrl := JStr (base ++ js "/" ++ filename) in
      match upstream e segmentUrl with
      | inl err => (segment_error filename err, [Fetch segmentUrl])
      | inr r =>
          if ok r then
            (addCorsHeaders
               (Response (up_status r) (up_statusText r)
                  [(js "Content-Type", js "video/mp2t");
                   (js "Accept-Ranges", js "bytes");
                   (js "Cache-Control", js "public, max-age=3600")]
                  (BodyStream (up_bytes r))),
             [Fetch segmentUrl])
          else
            (segment_error filename
               (Error (js "Failed to fetch segment: " ++ decimal (up_status r))),
             [Fetch segmentUrl])
      end
  end.

(** ** proxyM3U8Playlist (lines 151-232) *)

(** Lines 154-163. *)
Definition targetUrl (originalUrl : json) (filename quality : jsstring) : error + json :=
  if str_eqb filename (js "master.m3u8") then inr originalUrl
  else if str_eqb filename (js "index.m3u8") || str_eqb filename (js "playlist.m3u8") then
    match baseUrl originalUrl with
    | inl err => inl err
    | inr base => inr (JStr (base ++ js "/" ++ quality ++ js "/index.m3u8"))
    end
  else inr originalUrl.

Definition playlist_error (filename quality : jsstring) (err : error) : response :=
  json_response 500
    [(js "error", FString (js "Playlist not available"));
     (js "details", FMessage err);
     (js "filename", FString filename);
     (js "quality", FString quality)].

Definition proxyM3U8Playlist (e : env) (originalUrl : json)
    (filename quality sessionPath origin : jsstring) : response * list effect :=
  match targetUrl originalUrl filename quality with
  | inl err => (playlist_error filename quality err, [])
  | inr target =>
      match upstream e target with
      | inl err => (playlist_error filename quality err, [Fetch target])
      | inr r =>
          if ok r then
            match rewritePlaylist origin sessionPath filename quality (up_text r) with
            | Some rewrittenPlaylist =>
                (addCorsHeaders
                   (Response 200 []
                      [(js "Content-Type", js "application/vnd.apple.mpegurl");
                       (js "Cache-Control", js "no-cache, no-store, must-revalidate");
                       (js "Pragma", js "no-cache");
                       (js "Expires", js "0")]
                      (BodyText rewrittenPlaylist)),
                 [Fetch target])
            | None =>
                (playlist_error filename quality InvalidCharacterError, [Fetch target])
            end
          else
            (playlist_error filename quality
               (Error (js "Failed to fetch playlist: " ++ decimal (up_status r)
                       ++ js " " ++ up_statusText r)),
             [Fetch target])
      end
  end.

(** ** handleDatacrateProxy (lines 235-294) *)

Definition decode_error_response (t : Z) : response :=
  json_response 400
    [(js "error", FString (js "Failed to decode URL"));
     (js "details", FMessage InvalidCharacterError);
     (js "timestamp", FIsoString t)].

Definition session_not_found_response (sessionPath : jsstring) : response :=
  json_response 404
    [(js "error", FString (js "Session not found or expired"));
     (js "sessionPath", FString (take 20 sessionPath ++ js "..."));
     (js "note", FString (js "Session may have expired or was never stored"))].

(** Lines 270-273. *)
Definition is_segment (filename : jsstring) : bool :=
  endsWith (js ".ts") filename
  || (negb (includes (js ".m3u8") filename)
      && negb (includes (js "master") filename)
      && negb (includes (js "index") filename)).

Definition handleDatacrateProxy (e : env) (sessions : store) (origin pathname : jsstring)
    : outcome :=
  let pathParts := split (ch "/") pathname in
  if (length pathParts <? 5)%nat then
    Outcome (text_response 400 (js "Invalid URL format")) sessions []
  else
    let sessionPath := nth 2 pathParts [] in
    let qualityB64 := nth 3 pathParts [] in
    let filenameB64 := nth 4 pathParts [] in
    match decode qualityB64 with
    | None => Outcome (decode_error_response (now e)) sessions []
    | Some quality =>
        match decode (remove_first (js ".m3u8") filenameB64) with
        | None => Outcome (decode_error_response (now e)) sessions []
        | Some filename =>
            let '(sessionData, sessions', reads) := getSession sessions (now e) sessionPath in
            match sessionData with
            | None => Outcome (session_not_found_response sessionPath) sessions' reads
            | Some data =>
                let '(r, fetches) :=
                  if is_segment filename then proxyVideoSegment e (originalUrl data) filename
                  else proxyM3U8Playlist e (originalUrl data) filename quality sessionPath origin
                in Outcome r sessions' (reads ++ fetches)
            end
        end
    end.

(** ** handleLegacyProxy (lines 297-319) *)

Definition legacy_gone_response : response :=
  json_response 410
    [(js "error", FString (js "Legacy format deprecated"));
     (js "message",
      FString (js "Please use the datacrate format: /file2/[session]/[quality]/[filename].m3u8"));
     (js "format", FString (js "file2/[sessionPath]/[qualityBase64]/[filenameBase64].m3u8"));
     (js "example", FString (js "/file2/abc123/cXVhbGl0eQ==/cGxheWxpc3QubTN1OA==.m3u8"))].

Definition handleLegacyProxy (pathname : jsstring) : response :=
  let pathParts := filter_Boolean (split (ch "/") pathname) in
  if (length pathParts <? 5)%nat then text_response 400 (js "Invalid legacy URL format")
  else legacy_gone_response.

(** ** handleHealth (lines 322-341) *)

Definition handleHealth (e : env) : response :=
  json_response 200
    [(js "status", FString (js "ok"));
     (js "message", FString (js "HLS Proxy Worker is running"));
     (js "timestamp", FIsoString (now e));
     (js "endpoints",
      FValue (JObj
        [(js "store-session", JStr (js "POST /store-session - Store session data"));
         (js "datacrate", JStr (js "GET /file2/[session]/[quality]/[filename] - Proxy HLS streams"));
         (js "legacy", JStr (js "GET /stream/[provider]/[quality]/[type]/[data] - Legacy format"));
         (js "health", JStr (js "GET /health - Health check"))]))].

(** ** The request handler (lines 344-389) *)

Record request : Type := Request {
  method : jsstring;
  url_origin : jsstring;     (* new URL(request.url).origin *)
  url_pathname : jsstring;   (* new URL(request.url).pathname *)
  payload : option json;     (* await request.json(), None when it rejects *)
}.

Definition fetch (e : env) (sessions : store) (req : request) : outcome :=
  if str_eqb (method req) (js "OPTIONS") then
    Outcome (addCorsHeaders (Response 200 [] [] BodyNull)) sessions []
  else if startsWith (js "/store-session") (url_pathname req) then
    handleStoreSession e sessions (method req) (payload req)
  else if startsWith (js "/file2/") (url_pathname req) then
    handleDatacrateProxy e sessions (url_origin req) (url_pathname req)
  else if startsWith (js "/stream/") (url_pathname req) then
    Outcome (handleLegacyProxy (url_pathname req)) sessions []
  else if str_eqb (url_pathname req) (js "/health") then
    Outcome (handleHealth e) sessions []
  else
    Outcome
      (addCorsHeaders
         (Response 200 [] [(js "Content-Type", js "text/plain")]
            (BodyText (js "HLS Proxy Worker - Ready"))))
      sessions [].

(** * Properties *)

#[local] Arguments js : simpl never.
#[local] Arguments ch : simpl never.
#[local] Arguments N.eqb : simpl never.
#[local] Arguments N.leb : simpl never.
#[local] Arguments N.ltb : simpl never.

(** ** Strings *)

Lemma str_eqb_eq (a b : jsstring) : str_eqb a b = true ↔ a = b.
Proof. unfold str_eqb. apply bool_decide_eq_true. Qed.

Lemma str_eqb_neq (a b : jsstring) : str_eqb a b = false ↔ a ≠ b.
Proof. unfold str_eqb. apply bool_decide_eq_false. Qed.

Lemma strip_prefix_Some (p s t : jsstring) : strip_prefix p s = Some t ↔ s = p ++ t.
Proof.
  split; [apply strip_prefix_app|]. intros ->.
  induction p as [|a p IH]; simpl; [done|]. by rewrite N.eqb_refl.
Qed.

Lemma startsWith_true (p s : jsstring) : startsWith p s = true ↔ ∃ t, s = p ++ t.
Proof.
  unfold startsWith. destruct (strip_prefix p s) as [t|] eqn:E.
  - apply strip_prefix_Some in E. naive_solver.
  - split; [done|]. intros [t Ht]. apply strip_prefix_Some in Ht. congruence.
Qed.

(** The three path prefixes of the router exclude one another. *)
Lemma file2_not_store_session (p : jsstring) :
  startsWith (js "/file2/") p = true → startsWith (js "/store-session") p = false.
Proof.
  intros [t ->]%startsWith_true. reflexivity.
Qed.

Lemma stream_not_store_session (p : jsstring) :
  startsWith (js "/stream/") p = true → startsWith (js "/store-session") p = false.
Proof.
  intros [t ->]%startsWith_true. reflexivity.
Qed.

Lemma stream_not_file2 (p : jsstring) :
  startsWith (js "/stream/") p = true → startsWith (js "/file2/") p = false.
Proof.
  intros [t ->]%startsWith_true. reflexivity.
Qed.

(** The text before the last slash. *)
Lemma lastIndexOf_none (name : jsstring) :
  ch "/" ∉ name → lastIndexOf (js "/") name = None.
Proof.
  change (js "/") with [47]. change (ch "/") with 47.
  induction name as [|c name IH]; [done|].
  intros [Hc Hname]%not_elem_of_cons. simpl. rewrite (IH Hname).
  unfold startsWith. simpl. by destruct (N.eqb_spec 47 c) as [<-|].
Qed.

Lemma lastIndexOf_slash (dir name : jsstring) :
  ch "/" ∉ name → lastIndexOf (js "/") (dir ++ js "/" ++ name) = Some (length dir).
Proof.
  intros Hn%lastIndexOf_none. change (js "/") with [47] in *.
  induction dir as [|d dir IH]; simpl.
  - by rewrite Hn.
  - simpl in IH. by rewrite IH.
Qed.

Lemma baseUrl_dirname (dir name : jsstring) :
  ch "/" ∉ name → baseUrl (JStr (dir ++ js "/" ++ name)) = inr dir.
Proof.
  intros H. unfold baseUrl. rewrite (lastIndexOf_slash _ _ H). simpl.
  by rewrite take_app_length.
Qed.

Lemma baseUrl_no_slash (u : jsstring) : ch "/" ∉ u → baseUrl (JStr u) = inr [].
Proof. intros H. unfold baseUrl. by rewrite (lastIndexOf_none _ H). Qed.

(** ** Routing *)

Lemma fetch_file2 (e : env) (sessions : store) (req : request) :
  method req ≠ js "OPTIONS" →
  startsWith (js "/file2/") (url_pathname req) = true →
  fetch e sessions req = handleDatacrateProxy e sessions (url_origin req) (url_pathname req).
Proof.
  intros Hm Hp. unfold fetch.
  apply str_eqb_neq in Hm. rewrite Hm, (file2_not_store_session _ Hp), Hp. done.
Qed.

Lemma fetch_stream (e : env) (sessions : store) (req : request) :
  method req ≠ js "OPTIONS" →
  startsWith (js "/stream/") (url_pathname req) = true →
  fetch e sessions req = Outcome (handleLegacyProxy (url_pathname req)) sessions [].
Proof.
  intros Hm Hp. unfold fetch. apply str_eqb_neq in Hm.
  rewrite Hm, (stream_not_store_session _ Hp), (stream_not_file2 _ Hp), Hp. done.
Qed.

(** ** Sessions *)

Lemma getSession_missing (sessions : store) (t : Z) (sid : jsstring) :
  sessions !! sid = None →
  getSession sessions t sid = (None, sessions, [StoreGet sid]).
Proof. intros H. unfold getSession. by rewrite H. Qed.

Lemma getSession_expired (sessions : store) (t : Z) (sid : jsstring) (s : session) :
  sessions !! sid = Some s → expiresAt s ≠ 0%Z → (expiresAt s < t)%Z →
  getSession sessions t sid
  = (None, delete sid sessions, [StoreGet sid; StoreDelete sid]).
Proof.
  intros H Hz Ht. unfold getSession. rewrite H.
  destruct (Z.eqb_spec (expiresAt s) 0); [done|].
  destruct (Z.ltb_spec (expiresAt s) t); [done|lia].
Qed.

Lemma getSession_live (sessions : store) (t : Z) (sid : jsstring) (s : session) :
  sessions !! sid = Some s → (t ≤ expiresAt s)%Z →
  getSession sessions t sid = (Some s, sessions, [StoreGet sid]).
Proof.
  intros H Ht. unfold getSession. rewrite H.
  destruct (Z.ltb_spec (expiresAt s) t); [lia|]. by rewrite andb_false_r.
Qed.

(** X1.  A session stored at [t0] under a string id is returned by
    [getSession], record and all and with the store left as it is, at every
    time up to [t0] plus 24 hours inclusive.  The first read after that
    returns null and deletes the entry, unless [t0] is -86400000: then
    [expiresAt] is 0, which the expiry test takes for "no expiry", and the
    session is returned at every time. *)
Lemma stored_session_lifetime (sessions : store) (t0 t : Z) (sid : jsstring)
    (url : json) (md : option json) :
  let s := {| originalUrl := url;
              metadata := default (JObj []) md;
              timestamp := t0;
              expiresAt := (t0 + 24 * 60 * 60 * 1000)%Z |} in
  let sessions' := storeSession sessions t0 (JStr sid) url md in
  ((t ≤ t0 + 86400000)%Z →
     getSession sessions' t sid = (Some s, sessions', [StoreGet sid]))
  ∧ ((t0 + 86400000 < t)%Z → t0 ≠ (-86400000)%Z →
     getSession sessions' t sid = (None, delete sid sessions, [StoreGet sid; StoreDelete sid]))
  ∧ (t0 = (-86400000)%Z →
     getSession sessions' t sid = (Some s, sessions', [StoreGet sid])).
Proof.
  intros s sessions'. subst s sessions'. unfold storeSession. split; [|split].
  - intros Ht. erewrite getSession_live; [done|apply lookup_insert_eq|simpl; lia].
  - intros Ht Hz.
    erewrite getSession_expired; [|apply lookup_insert_eq|simpl; lia|simpl; lia].
    by rewrite delete_insert_eq.
  - intros ->. unfold getSession. rewrite lookup_insert_eq. reflexivity.
Qed.

Lemma stored_session_lifetime_witness :
  getSession
    (storeSession ∅ 1700000000000 (JStr (js "abc"))
       (JStr (js "https://cdn.example/v/master.m3u8")) None)
    1700086400001 (js "abc")
  = (None, delete (js "abc") ∅, [StoreGet (js "abc"); StoreDelete (js "abc")]).
Proof.
  destruct (stored_session_lifetime ∅ 1700000000000 1700086400001 (js "abc")
              (JStr (js "https://cdn.example/v/master.m3u8")) None) as (_ & H & _).
  apply H; lia.
Defined.

(** ** The upstream URL of a manifest *)

(** C10.  The one upstream fetch of proxyM3U8Playlist for a session whose
    origin URL is [dir/name] ([name] free of slashes): when the decoded
    filename is literally [index.m3u8] or [playlist.m3u8] it targets
    [dir/quality/index.m3u8], the decoded quality being spliced in as it is;
    for every other filename, [master.m3u8] included, it targets the origin
    URL itself, whatever the filename. *)
Theorem manifest_fetch_target (e : env) (dir name filename quality sessionPath origin : jsstring) :
  ch "/" ∉ name →
  (proxyM3U8Playlist e (JStr (dir ++ js "/" ++ name)) filename quality sessionPath origin).2
  = [Fetch (JStr (if decide (filename = js "index.m3u8" ∨ filename = js "playlist.m3u8")
                  then dir ++ js "/" ++ quality ++ js "/index.m3u8"
                  else dir ++ js "/" ++ name))].
Proof.
  intros Hname. unfold proxyM3U8Playlist.
  assert (targetUrl (JStr (dir ++ js "/" ++ name)) filename quality
          = inr (JStr (if decide (filename = js "index.m3u8" ∨ filename = js "playlist.m3u8")
                       then dir ++ js "/" ++ quality ++ js "/index.m3u8"
                       else dir ++ js "/" ++ name))) as ->.
  { unfold targetUrl. rewrite (baseUrl_dirname _ _ Hname).
    destruct (str_eqb filename (js "master.m3u8")) eqn:Em.
    - apply str_eqb_eq in Em. subst filename.
      case_decide as H; [|done]. destruct H as [H|H]; vm_compute in H; discriminate.
    - destruct (str_eqb filename (js "index.m3u8")) eqn:Ei; simpl.
      { apply str_eqb_eq in Ei. case_decide as H; [done|]. destruct H. by left. }
      destruct (str_eqb filename (js "playlist.m3u8")) eqn:Ep; simpl.
      { apply str_eqb_eq in Ep. case_decide as H; [done|]. destruct H. by right. }
      apply str_eqb_neq in Ei, Ep. case_decide as H; [|done]. by destruct H. }
  destruct (upstream e _) as [err|r]; [done|].
  destruct (ok r); [|done]. by destruct (rewritePlaylist _ _ _ _ _).
Qed.

Definition sample_upstream (body : jsstring) : json → error + upstream_response :=
  λ _, inr (UpstreamResponse 200 (js "OK") [] body).

Lemma manifest_fetch_target_witness :
  (proxyM3U8Playlist (Env 0 (sample_upstream (js "#EXTM3U")))
     (JStr (js "https://cdn.example/v/master.m3u8")) (js "index.m3u8") (js "720p")
     (js "abc") (js "https://proxy.example")).2
  = [Fetch (JStr (js "https://cdn.example/v/720p/index.m3u8"))]
  ∧ (proxyM3U8Playlist (Env 0 (sample_upstream (js "#EXTM3U")))
     (JStr (js "https://cdn.example/v/master.m3u8")) (js "video.m3u8") (js "720p")
     (js "abc") (js "https://proxy.example")).2
  = [Fetch (JStr (js "https://cdn.example/v/master.m3u8"))].
Proof.
  split.
  - apply (manifest_fetch_target (Env 0 (sample_upstream (js "#EXTM3U")))
             (js "https://cdn.example/v") (js "master.m3u8") (js "index.m3u8") (js "720p")
             (js "abc") (js "https://proxy.example")).
    vm_compute. intros H.
    repeat (apply elem_of_cons in H as [H|H]; [discriminate H|]). by apply elem_of_nil in H.
  - reflexivity.
Defined.

(** ** The legacy prefix *)

Definition sample_env : env := Env 1700000000000 (sample_upstream (js "#EXTM3U")).

(** C9, as stated, fails: a legacy path with fewer than five segments is
    answered 400, not 410. *)
Lemma legacy_short_path_is_400 :
  out_response
    (fetch sample_env ∅ (Request (js "GET") (js "https://proxy.example") (js "/stream/a/b") None))
  = text_response 400 (js "Invalid legacy URL format")
  ∧ status (text_response 400 (js "Invalid legacy URL format")) = 400.
Proof. split; reflexivity. Qed.

(** C9, amended.  A request other than OPTIONS whose path is under
    [/stream/] is answered 410 with the structured description of the current
    format when the path has at least five non-empty segments, and 400 with
    the plain text [Invalid legacy URL format] when it has fewer; neither
    touches the store or the upstream. *)
Theorem legacy_format_gone (e : env) (sessions : store) (req : request) :
  method req ≠ js "OPTIONS" →
  startsWith (js "/stream/") (url_pathname req) = true →
  let segments := filter_Boolean (split (ch "/") (url_pathname req)) in
  let o := fetch e sessions req in
  out_store o = sessions ∧ out_effects o = [] ∧
  ((5 ≤ length segments)%nat →
     status (out_response o) = 410
     ∧ resp_body (out_response o)
       = BodyJson
           [(js "error", FString (js "Legacy format deprecated"));
            (js "message",
             FString (js "Please use the datacrate format: /file2/[session]/[quality]/[filename].m3u8"));
            (js "format", FString (js "file2/[sessionPath]/[qualityBase64]/[filenameBase64].m3u8"));
            (js "example", FString (js "/file2/abc123/cXVhbGl0eQ==/cGxheWxpc3QubTN1OA==.m3u8"))]) ∧
  ((length segments < 5)%nat →
     status (out_response o) = 400
     ∧ resp_body (out_response o) = BodyText (js "Invalid legacy URL format")).
Proof.
  intros Hm Hp segments o. subst o. rewrite (fetch_stream _ _ _ Hm Hp). simpl.
  unfold handleLegacyProxy. fold segments.
  split; [done|]. split; [done|]. split; intros Hlen.
  - destruct (Nat.ltb_spec (length segments) 5); [lia|]. done.
  - destruct (Nat.ltb_spec (length segments) 5); [|lia]. done.
Qed.

Lemma legacy_format_gone_witness :
  let o := fetch sample_env ∅
             (Request (js "GET") (js "https://proxy.example") (js "/stream/p/720p/hls/data/x") None) in
  status (out_response o) = 410 ∧ out_effects o = [].
Proof.
  pose proof (legacy_format_gone sample_env ∅
    (Request (js "GET") (js "https://proxy.example") (js "/stream/p/720p/hls/data/x") None)) as H.
  destruct H as (_ & Heff & H410 & _).
  - vm_compute. discriminate.
  - reflexivity.
  - split; [|exact Heff]. apply H410. vm_compute. lia.
Defined.

(** ** Session creation *)

Definition required_fields_response : response :=
  json_response 400 [(js "error", FString (js "sessionId and originalUrl are required"))].

(** C8, as stated, fails: with [sessionId] and [originUrl] both present the
    answer is 400, and its message names [originalUrl]. *)
Lemma store_session_originUrl_is_400 :
  out_response
    (fetch sample_env ∅
       (Request (js "POST") (js "https://proxy.example") (js "/store-session")
          (Some (JObj [(js "sessionId", JStr (js "abc"));
                       (js "originUrl", JStr (js "https://cdn.example/v/master.m3u8"))]))))
  = json_response 400 [(js "error", FString (js "sessionId and originalUrl are required"))]
  ∧ status (json_response 400
              [(js "error", FString (js "sessionId and originalUrl are required"))]) = 400.
Proof. split; reflexivity. Qed.

(** C8, amended.  For a POST under [/store-session] whose body parses to an
    object: when the [sessionId] field or the [originalUrl] field is missing
    (or falsy) the response is 400 with the JSON body
    [{error: "sessionId and originalUrl are required"}] and nothing is stored;
    when both are present and truthy the response is 200 with
    [{success: true, sessionId}] and the session is stored. *)
Theorem store_session_validation (e : env) (sessions : store) (req : request)
    (fields : list (jsstring * json)) :
  method req = js "POST" →
  startsWith (js "/store-session") (url_pathname req) = true →
  payload req = Some (JObj fields) →
  let sessionId := own_property (js "sessionId") fields in
  let originalUrl := own_property (js "originalUrl") fields in
  let o := fetch e sessions req in
  (sessionId = None ∨ originalUrl = None ∨ truthy sessionId = false ∨ truthy originalUrl = false →
     status (out_response o) = 400
     ∧ resp_body (out_response o)
       = BodyJson [(js "error", FString (js "sessionId and originalUrl are required"))]
     ∧ out_store o = sessions) ∧
  (∀ sid url, sessionId = Some sid → originalUrl = Some url →
     truthy sessionId = true → truthy originalUrl = true →
     status (out_response o) = 200
     ∧ resp_body (out_response o)
       = BodyJson [(js "success", FValue (JBool true)); (js "sessionId", FValue sid)]
     ∧ out_store o
       = storeSession sessions (now e) sid url (own_property (js "metadata") fields)).
Proof.
  intros Hm Hp Hb sessionId originalUrl o. subst o. unfold fetch.
  rewrite Hm, Hp, Hb. change (str_eqb (js "POST") (js "OPTIONS")) with false. cbv iota.
  unfold handleStoreSession. change (negb (str_eqb (js "POST") (js "POST"))) with false.
  cbv iota. unfold get_property. fold sessionId originalUrl. split.
  - intros H.
    assert (negb (truthy sessionId) || negb (truthy originalUrl) = true) as ->; [|done].
    destruct H as [->| [->| [->| ->]]]; simpl; try done; apply orb_true_r.
  - intros sid url Hs Hu Hts Htu. rewrite Hts, Htu, Hs, Hu. done.
Qed.

Lemma store_session_validation_witness :
  let req := Request (js "POST") (js "https://proxy.example") (js "/store-session")
               (Some (JObj [(js "sessionId", JStr (js "abc"));
                            (js "originalUrl", JStr (js "https://cdn.example/v/master.m3u8"))])) in
  status (out_response (fetch sample_env ∅ req)) = 200
  ∧ is_Some (out_store (fetch sample_env ∅ req) !! js "abc").
Proof.
  intros req.
  destruct (store_session_validation sample_env ∅ req
              [(js "sessionId", JStr (js "abc"));
               (js "originalUrl", JStr (js "https://cdn.example/v/master.m3u8"))]
              eq_refl eq_refl eq_refl) as [_ H].
  destruct (H (JStr (js "abc")) (JStr (js "https://cdn.example/v/master.m3u8"))
              eq_refl eq_refl eq_refl eq_refl) as (Hst & _ & Hstore).
  split; [exact Hst|]. rewrite Hstore. unfold storeSession. rewrite lookup_insert_eq. by eexists.
Defined.

(** ** Proxy requests: decoding and session lookup *)

(** C7.  A proxy request (five path parts or more) whose quality token or
    filename token fails to decode is answered 400 with the JSON body
    [{error: "Failed to decode URL", details, timestamp}]; the handler
    performs no effect at all, so the session store is neither read nor
    changed and nothing is fetched. *)
Theorem undecodable_token_is_400 (e : env) (sessions : store) (req : request) :
  method req ≠ js "OPTIONS" →
  startsWith (js "/file2/") (url_pathname req) = true →
  let pathParts := split (ch "/") (url_pathname req) in
  (5 ≤ length pathParts)%nat →
  decode (nth 3 pathParts []) = None
  ∨ decode (remove_first (js ".m3u8") (nth 4 pathParts [])) = None →
  let o := fetch e sessions req in
  status (out_response o) = 400
  ∧ resp_body (out_response o)
    = BodyJson [(js "error", FString (js "Failed to decode URL"));
                (js "details", FMessage InvalidCharacterError);
                (js "timestamp", FIsoString (now e))]
  ∧ out_effects o = []
  ∧ out_store o = sessions.
Proof.
  intros Hm Hp pathParts Hlen Hdec o. subst o.
  rewrite (fetch_file2 _ _ _ Hm Hp). unfold handleDatacrateProxy. fold pathParts.
  destruct (Nat.ltb_spec (length pathParts) 5); [lia|].
  destruct (decode (nth 3 pathParts [])) as [quality|]; [|done].
  destruct Hdec as [|Hdec]; [done|]. by rewrite Hdec.
Qed.

Lemma undecodable_token_is_400_witness :
  let req := Request (js "GET") (js "https://proxy.example")
               (js "/file2/abc/MTA4MHA/aW5kZXgubTN1OA.m3u8") None in
  status (out_response (fetch sample_env ∅ req)) = 400
  ∧ out_effects (fetch sample_env ∅ req) = [].
Proof.
  intros req.
  destruct (undecodable_token_is_400 sample_env ∅ req) as (H1 & _ & H2 & _).
  - vm_compute. discriminate.
  - reflexivity.
  - vm_compute. lia.
  - left. reflexivity.
  - split; [exact H1|exact H2].
Defined.

(** C6, as stated, fails twice: a request for a session that was never
    stored is answered 400, not 404, when one of its tokens does not decode
    (here the token the rewriter itself emits for [1080p]); and the 404 body
    shows a session id of at most 20 code units in full. *)
Lemma unknown_session_not_always_404 :
  status (out_response
    (fetch sample_env ∅
       (Request (js "GET") (js "https://proxy.example")
          (js "/file2/abc/MTA4MHA/aW5kZXgubTN1OA.m3u8") None))) = 400
  ∧ resp_body (out_response
      (fetch sample_env ∅
         (Request (js "GET") (js "https://proxy.example")
            (js "/file2/abc/NzIwcA/aW5kZXgubTN1OA.m3u8") None)))
    = BodyJson [(js "error", FString (js "Session not found or expired"));
                (js "sessionPath", FString (js "abc" ++ js "..."));
                (js "note", FString (js "Session may have expired or was never stored"))].
Proof. split; reflexivity. Qed.

(** C6, amended.  For a proxy request with at least five path parts whose
    two tokens decode, and whose session id was never stored or is read
    after its expiry time: the response is 404 with a JSON error body in
    which the session id is cut to its first 20 code units and followed by
    three dots (a shorter id is shown whole); no upstream fetch is performed;
    and the store afterwards has no entry for the id, every other entry being
    untouched (lazy expiry). *)
Theorem missing_session_is_404 (e : env) (sessions : store) (req : request)
    (quality filename : jsstring) :
  method req ≠ js "OPTIONS" →
  startsWith (js "/file2/") (url_pathname req) = true →
  let pathParts := split (ch "/") (url_pathname req) in
  let sessionPath := nth 2 pathParts [] in
  (5 ≤ length pathParts)%nat →
  decode (nth 3 pathParts []) = Some quality →
  decode (remove_first (js ".m3u8") (nth 4 pathParts [])) = Some filename →
  sessions !! sessionPath = None
  ∨ (∃ s, sessions !! sessionPath = Some s ∧ expiresAt s ≠ 0%Z ∧ (expiresAt s < now e)%Z) →
  let o := fetch e sessions req in
  status (out_response o) = 404
  ∧ resp_body (out_response o)
    = BodyJson [(js "error", FString (js "Session not found or expired"));
                (js "sessionPath", FString (take 20 sessionPath ++ js "..."));
                (js "note", FString (js "Session may have expired or was never stored"))]
  ∧ (∀ target, Fetch target ∉ out_effects o)
  ∧ out_store o = delete sessionPath sessions.
Proof.
  intros Hm Hp pathParts sessionPath Hlen Hq Hf Hs o. subst o.
  rewrite (fetch_file2 _ _ _ Hm Hp). unfold handleDatacrateProxy. fold pathParts.
  destruct (Nat.ltb_spec (length pathParts) 5); [lia|].
  rewrite Hq, Hf. fold sessionPath.
  destruct Hs as [Hs|(s & Hs & Hz & Ht)].
  - rewrite (getSession_missing _ _ _ Hs). simpl.
    split; [done|]. split; [done|]. split.
    + intros target [Hin|Hin]%elem_of_cons; [done|]. by apply elem_of_nil in Hin.
    + symmetry. by apply delete_id.
  - rewrite (getSession_expired _ _ _ _ Hs Hz Ht). simpl.
    split; [done|]. split; [done|]. split; [|done].
    intros target Hin. repeat (apply elem_of_cons in Hin as [Hin|Hin]; [done|]).
    by apply elem_of_nil in Hin.
Qed.

Definition expired_store : store :=
  storeSession ∅ 1600000000000 (JStr (js "abc"))
    (JStr (js "https://cdn.example/v/master.m3u8")) None.

Lemma missing_session_is_404_witness :
  let req := Request (js "GET") (js "https://proxy.example")
               (js "/file2/abc/NzIwcA/aW5kZXgubTN1OA.m3u8") None in
  status (out_response (fetch sample_env expired_store req)) = 404
  ∧ out_store (fetch sample_env expired_store req) !! js "abc" = None.
Proof.
  intros req.
  destruct (missing_session_is_404 sample_env expired_store req (js "720p") (js "index.m3u8"))
    as (H1 & _ & _ & H2).
  - vm_compute. discriminate.
  - reflexivity.
  - vm_compute. lia.
  - reflexivity.
  - reflexivity.
  - right. eexists. split; [apply lookup_insert_eq|]. split; [discriminate|reflexivity].
  - split; [exact H1|]. rewrite H2. apply lookup_delete_eq.
Defined.

(** ** The addressing codec *)

(** C1.  The round trip the claim asks for does not hold in the code: the
    tokens of [1080p] (five code units) and of [abc] (three, no padding in
    its base64 form) are not decoded back, because [atob] rejects them once
    [==] has been appended. *)
Theorem codec_round_trip_fails :
  encode (js "1080p") = Some (js "MTA4MHA") ∧ decode (js "MTA4MHA") = None
  ∧ encode (js "abc") = Some (js "YWJj") ∧ decode (js "YWJj") = None.
Proof. repeat split; reflexivity. Qed.

(** ** Master playlists *)

(** The master rewriting of lines 183-193, called on its own with the
    filename [master.m3u8], does not detect the quality of a relative
    reference: both lines of this playlist are replaced by the proxy URL of
    the quality [unknown], whose token is [dW5rbm93bg]. *)
Lemma master_relative_quality_is_unknown (origin S quality : jsstring) :
  encode (js "unknown") = Some (js "dW5rbm93bg")
  ∧ encode (js "index.m3u8") = Some (js "aW5kZXgubTN1OA")
  ∧ rewritePlaylist origin S (js "master.m3u8") quality
      (js "#EXTM3U" ++ LF ++ js "1080p/index.m3u8" ++ LF ++ js "720p/index.m3u8")
    = Some (js "#EXTM3U" ++ LF
            ++ (origin ++ js "/file2/" ++ S ++ js "/" ++ js "dW5rbm93bg" ++ js "/"
                ++ js "aW5kZXgubTN1OA" ++ js ".m3u8") ++ LF
            ++ (origin ++ js "/file2/" ++ S ++ js "/" ++ js "dW5rbm93bg" ++ js "/"
                ++ js "aW5kZXgubTN1OA" ++ js ".m3u8")).
Proof.
  split; [reflexivity|]. split; [reflexivity|].
  rewrite <- (app_nil_r (origin ++ _)) at 2. vm_compute. reflexivity.
Qed.

(** ** The rewriter, line by line *)

(** The lines of a text as the patterns' [^] delimits them, the line
    terminators between them, and the text they make up together. *)
Definition lines (s : jsstring) : list jsstring := split_by is_line_terminator s.

Definition terminators (s : jsstring) : list N := List.filter is_line_terminator s.

Fixpoint unlines (ls : list jsstring) (ts : list N) : jsstring :=
  match ls, ts with
  | l :: ls', t :: ts' => l ++ t :: unlines ls' ts'
  | l :: _, [] => l
  | [], _ => []
  end.

(** What the rewriter makes of one line: the reference at its head, if the
    pattern finds one, gives way to the callback's result. *)
Definition rewrite_line (ext : jsstring) (callback : jsstring → option jsstring)
    (l : jsstring) : option jsstring :=
  match match_reference ext l with
  | Some (m, rest) => r ← callback m; Some (r ++ rest)
  | None => Some l
  end.

Lemma replace_references_cons (ext : jsstring) (f : jsstring → option jsstring)
    (prev : option N) (c : N) (s' : jsstring) :
  replace_references ext f prev (c :: s')
  = match (if at_line_start prev then match_reference ext (c :: s') else None) with
    | Some (m, rest) =>
        r ← f m; out ← replace_references ext f (list.last m) rest; Some (r ++ out)
    | None => out ← replace_references ext f (Some c) s'; Some (c :: out)
    end.
Proof.
  rewrite replace_references_equation_2.
  change (if at_line_start prev then match_reference ext (c :: s') else None)
    with (proj1_sig (inspect (if at_line_start prev then match_reference ext (c :: s') else None)))
    at 2.
  generalize (inspect (if at_line_start prev then match_reference ext (c :: s') else None)).
  intros [[[m rest]|] Heq]; simp replace_references; reflexivity.
Qed.

Lemma replace_references_line_start (ext : jsstring) (f : jsstring → option jsstring)
    (prev : option N) (s : jsstring) :
  at_line_start prev = true →
  replace_references ext f prev s = replace_references ext f None s.
Proof.
  intros H. destruct s as [|c s']; [by simp replace_references|].
  rewrite !replace_references_cons, H. done.
Qed.

Lemma line_terminator_is_space (c : N) : is_line_terminator c = true → is_space c = true.
Proof. intros H. unfold is_space. rewrite H. by rewrite !orb_true_r. Qed.

(** *** A match only looks at the text before the first white space *)

Lemma span_before_space (l x : jsstring) (t : N) :
  is_space t = true →
  span not_space (l ++ t :: x) = ((span not_space l).1, (span not_space l).2 ++ t :: x).
Proof.
  intros Ht. induction l as [|c l IH]; simpl.
  - unfold not_space. by rewrite Ht.
  - destruct (not_space c); [|done]. rewrite IH. by destruct (span not_space l).
Qed.

Lemma strip_prefix_before_space (p l x : jsstring) (t : N) :
  Forall (λ c, is_space c = false) p → is_space t = true →
  strip_prefix p (l ++ t :: x) = (λ r, r ++ t :: x) <$> strip_prefix p l.
Proof.
  intros Hp Ht. revert l. induction Hp as [|a p Ha Hp IH]; intros l; [done|].
  destruct l as [|b l]; simpl.
  - destruct (N.eqb_spec a t) as [->|]; [congruence|done].
  - destruct (a =? b); [apply IH|done].
Qed.

Lemma match_absolute_before_space (l x : jsstring) (t : N) :
  is_space t = true → match_absolute (l ++ t :: x) = match_absolute l.
Proof.
  intros Ht. unfold match_absolute.
  rewrite strip_prefix_before_space; [|by repeat constructor|done].
  destruct (strip_prefix (js "http") l) as [s1|]; [|done]. cbn [fmap option_fmap option_map mbind option_bind].
  set (s2 := match s1 with [] => s1 | c :: t0 => if c =? ch "s" then t0 else s1 end).
  assert (match s1 ++ t :: x with
          | [] => s1 ++ t :: x
          | c :: t0 => if c =? ch "s" then t0 else s1 ++ t :: x
          end = s2 ++ t :: x) as ->.
  { subst s2. destruct s1 as [|c s1]; simpl.
    - destruct (N.eqb_spec t (ch "s")) as [->|]; [done|done].
    - by destruct (c =? ch "s"). }
  rewrite strip_prefix_before_space; [|by repeat constructor|done].
  destruct (strip_prefix (js "://") s2) as [s3|]; [|done]. cbn [fmap option_fmap option_map mbind option_bind].
  rewrite span_before_space by done. cbn [fst snd].
  destruct (span not_space s3).1; [done|]. f_equal. rewrite !length_app. lia.
Qed.

Lemma match_relative_before_space (ext l x : jsstring) (t : N) :
  is_space t = true → match_relative ext (l ++ t :: x) = match_relative ext l.
Proof.
  intros Ht. destruct l as [|c l]; simpl.
  - by rewrite Ht, orb_true_r.
  - destruct ((c =? ch "/") || is_space c); [done|]. by rewrite span_before_space.
Qed.

Definition extend_rest (tail : jsstring) (r : jsstring * jsstring) : jsstring * jsstring :=
  (r.1, r.2 ++ tail).

Lemma match_reference_before_space (ext l x : jsstring) (t : N) :
  is_space t = true →
  match_reference ext (l ++ t :: x) = extend_rest (t :: x) <$> match_reference ext l.
Proof.
  intros Ht. unfold match_reference.
  destruct l as [|c l].
  - rewrite app_nil_l. cbv iota. destruct (t =? ch "#"); [done|].
    rewrite <- (app_nil_l (t :: x)).
    rewrite match_absolute_before_space, match_relative_before_space by done. done.
  - change ((c :: l) ++ t :: x) with (c :: (l ++ t :: x)). cbv iota.
    destruct (c =? ch "#"); [done|].
    change (c :: (l ++ t :: x)) with ((c :: l) ++ t :: x).
    rewrite match_absolute_before_space, match_relative_before_space by done.
    set (alt := match match_absolute (c :: l) with
                | Some n => Some n
                | None => match_relative ext (c :: l)
                end).
    assert (∀ n, alt = Some n → (n ≤ length (c :: l))%nat) as Hb.
    { subst alt. intros n. destruct (match_absolute (c :: l)) as [k|] eqn:Ha.
      - intros [= <-]. by apply match_absolute_bound in Ha as [_ ?].
      - intros Hr. by apply match_relative_bound in Hr as [_ ?]. }
    destruct alt as [n|]; [|done]. specialize (Hb n eq_refl).
    cbn [fmap option_fmap option_map mbind option_bind]. unfold extend_rest. cbn [fst snd].
    by rewrite take_app_le, drop_app_le.
Qed.

Lemma span_forall (p : N → bool) (s : jsstring) : Forall (λ c, p c = true) (span p s).1.
Proof.
  induction s as [|c s IH]; simpl; [constructor|].
  destruct (p c) eqn:E; [|constructor]. destruct (span p s). simpl in *. by constructor.
Qed.

Lemma span_rest (p : N → bool) (s : jsstring) :
  (span p s).2 = [] ∨ ∃ t x, (span p s).2 = t :: x ∧ p t = false.
Proof.
  induction s as [|c s IH]; simpl; [by left|].
  destruct (p c) eqn:E; [|right; eauto]. by destruct (span p s).
Qed.

Lemma match_reference_first_line (ext l tail m rest : jsstring) :
  tail = [] ∨ (∃ t x, tail = t :: x ∧ is_space t = true) →
  match_reference ext (l ++ tail) = Some (m, rest) →
  ∃ rest', rest = rest' ++ tail ∧ match_reference ext l = Some (m, rest').
Proof.
  intros [->|(t & x & -> & Ht)].
  - rewrite !app_nil_r. intros H. exists rest. by rewrite app_nil_r.
  - rewrite match_reference_before_space by done.
    destruct (match_reference ext l) as [[m' rest']|]; [|done].
    intros [= <- <-]. by exists rest'.
Qed.

Lemma match_reference_first_line_None (ext l tail : jsstring) :
  tail = [] ∨ (∃ t x, tail = t :: x ∧ is_space t = true) →
  match_reference ext (l ++ tail) = None → match_reference ext l = None.
Proof.
  intros [->|(t & x & -> & Ht)].
  - by rewrite app_nil_r.
  - rewrite match_reference_before_space by done.
    by destruct (match_reference ext l).
Qed.

(** A match holds no white space, so it never crosses a line terminator. *)
Lemma match_reference_no_space (ext s m rest : jsstring) :
  match_reference ext s = Some (m, rest) → Forall (λ c, is_space c = false) m.
Proof.
  intros H. pose proof (span_app not_space s) as Hs.
  pose proof (span_forall not_space s) as Hrun.
  destruct (span_rest not_space s) as [Ht|(t & x & Ht & Hsp)]; rewrite Ht in Hs.
  - rewrite app_nil_r in Hs. rewrite Hs in Hrun.
    apply match_reference_split in H as [-> _]. apply Forall_app in Hrun as [Hm _].
    eapply List.Forall_impl; [|exact Hm]. unfold not_space. intros c. by destruct (is_space c).
  - rewrite <- Hs in H. apply match_reference_first_line in H as (rest' & _ & H).
    + apply match_reference_split in H as [Hrun' _]. rewrite Hrun' in Hrun.
      apply Forall_app in Hrun as [Hm _].
      eapply List.Forall_impl; [|exact Hm]. unfold not_space. intros c. by destruct (is_space c).
    + right. exists t, x. split; [done|]. unfold not_space in Hsp. by destruct (is_space t).
Qed.

Lemma match_reference_last (ext s m rest : jsstring) :
  match_reference ext s = Some (m, rest) → at_line_start (list.last m) = false.
Proof.
  intros H. pose proof (match_reference_no_space _ _ _ _ H) as Hm.
  apply match_reference_split in H as [_ [Hlen _]].
  destruct (list.last m) as [c|] eqn:El.
  - apply last_Some in El as [m' ->]. apply Forall_app in Hm as [_ Hc].
    apply List.Forall_inv in Hc. cbn [at_line_start].
    destruct (is_line_terminator c) eqn:E; [|done].
    apply line_terminator_is_space in E. rewrite E in Hc. discriminate.
  - apply last_None in El. subst m. simpl in Hlen. lia.
Qed.

(** *** Lines *)

Lemma lines_head (s : jsstring) :
  ∃ l0 ls tail, lines s = l0 :: ls ∧ s = l0 ++ tail
    ∧ Forall (λ c, is_line_terminator c = false) l0
    ∧ (tail = []
       ∨ ∃ t x, tail = t :: x ∧ is_line_terminator t = true ∧ ls = lines x).
Proof.
  unfold lines. induction s as [|c s (l0 & ls & tail & Hl & Hs & Hl0 & Ht)]; simpl.
  - exists [], [], []. repeat split; [constructor|by left].
  - destruct (is_line_terminator c) eqn:Ec.
    + exists [], (split_by is_line_terminator s), (c :: s).
      repeat split; [constructor|]. right. by exists c, s.
    + rewrite Hl. exists (c :: l0), ls, tail. subst s. repeat split; [by constructor|done].
Qed.

Lemma lines_prepend (m s l0 : jsstring) (ls : list jsstring) :
  Forall (λ c, is_line_terminator c = false) m →
  lines s = l0 :: ls → lines (m ++ s) = (m ++ l0) :: ls.
Proof.
  intros Hm Hl. unfold lines in *. induction Hm as [|c m Hc Hm IH]; simpl; [done|].
  by rewrite Hc, IH.
Qed.

Lemma terminators_prepend (m s : jsstring) :
  Forall (λ c, is_line_terminator c = false) m → terminators (m ++ s) = terminators s.
Proof.
  intros Hm. unfold terminators. induction Hm as [|c m Hc Hm IH]; simpl; [done|].
  by rewrite Hc.
Qed.

Lemma unlines_prepend (r l : jsstring) (ls : list jsstring) (ts : list N) :
  unlines ((r ++ l) :: ls) ts = r ++ unlines (l :: ls) ts.
Proof. destruct ts; simpl; [done|]. by rewrite <- app_assoc. Qed.

Lemma no_space_no_terminator (m : jsstring) :
  Forall (λ c, is_space c = false) m → Forall (λ c, is_line_terminator c = false) m.
Proof.
  apply List.Forall_impl. intros c Hc. destruct (is_line_terminator c) eqn:E; [|done].
  apply line_terminator_is_space in E. congruence.
Qed.

(** *** The scan and the lines

    [rewrite_lines] is what the scan computes when it starts at the
    beginning of a line; [copy_line] is what it computes when it starts
    inside one. *)
Definition rewrite_lines (ext : jsstring) (f : jsstring → option jsstring)
    (s : jsstring) : option jsstring :=
  ls' ← mapM (rewrite_line ext f) (lines s); Some (unlines ls' (terminators s)).

Definition copy_line (ext : jsstring) (f : jsstring → option jsstring)
    (s : jsstring) : option jsstring :=
  match lines s with
  | l0 :: ls => ls' ← mapM (rewrite_line ext f) ls; Some (unlines (l0 :: ls') (terminators s))
  | [] => None
  end.

Lemma rewrite_lines_terminator (ext : jsstring) (f : jsstring → option jsstring)
    (c : N) (s : jsstring) :
  is_line_terminator c = true →
  (out ← rewrite_lines ext f s; Some (c :: out)) = copy_line ext f (c :: s)
  ∧ (out ← rewrite_lines ext f s; Some (c :: out)) = rewrite_lines ext f (c :: s).
Proof.
  intros Hc.
  assert (lines (c :: s) = [] :: lines s) as Hl.
  { unfold lines. simpl. by rewrite Hc. }
  assert (terminators (c :: s) = c :: terminators s) as Ht.
  { unfold terminators. simpl. by rewrite Hc. }
  unfold rewrite_lines, copy_line. rewrite Hl, Ht. cbn [mapM].
  change (rewrite_line ext f []) with (Some ([] : jsstring)).
  destruct (mapM (rewrite_line ext f) (lines s)); done.
Qed.

Lemma copy_line_cons (ext : jsstring) (f : jsstring → option jsstring)
    (c : N) (s : jsstring) :
  is_line_terminator c = false →
  (out ← copy_line ext f s; Some (c :: out)) = copy_line ext f (c :: s).
Proof.
  intros Hc. destruct (lines_head s) as (l0 & ls & tail & Hl & _).
  assert (lines (c :: s) = (c :: l0) :: ls) as Hl'.
  { unfold lines in *. simpl. by rewrite Hc, Hl. }
  assert (terminators (c :: s) = terminators s) as Ht.
  { unfold terminators. simpl. by rewrite Hc. }
  unfold copy_line. rewrite Hl, Hl', Ht.
  destruct (mapM (rewrite_line ext f) ls); simpl; [|done].
  by destruct (terminators s).
Qed.

Theorem replace_references_lines (ext : jsstring) (f : jsstring → option jsstring)
    (s : jsstring) :
  (∀ prev, at_line_start prev = false →
     replace_references ext f prev s = copy_line ext f s)
  ∧ replace_references ext f None s = rewrite_lines ext f s.
Proof.
  remember (length s) as n eqn:Hn. revert s Hn.
  induction n as [n IH] using lt_wf_ind. intros s Hn.
  destruct s as [|c s'].
  { split; [intros prev _|]; by simp replace_references. }
  assert (replace_references ext f (Some c) s'
          = if is_line_terminator c then rewrite_lines ext f s'
            else copy_line ext f s') as Hnext.
  { destruct (IH (length s') ltac:(simpl in Hn; lia) s' eq_refl) as [IHc IHr].
    destruct (is_line_terminator c) eqn:Ec.
    - rewrite replace_references_line_start by done. done.
    - by apply IHc. }
  assert (replace_references ext f (Some c) s' ≫= (λ out, Some (c :: out))
          = copy_line ext f (c :: s')) as Hcopy.
  { rewrite Hnext. destruct (is_line_terminator c) eqn:Ec.
    - by apply rewrite_lines_terminator.
    - by apply copy_line_cons. }
  split.
  - intros prev Hprev. rewrite replace_references_cons, Hprev. exact Hcopy.
  - rewrite replace_references_cons. cbn [at_line_start].
    destruct (match_reference ext (c :: s')) as [[m rest]|] eqn:Hm.
    + pose proof (match_reference_split _ _ _ _ Hm) as [Hs [Hlen _]].
      pose proof (no_space_no_terminator _ (match_reference_no_space _ _ _ _ Hm)) as Hterm.
      assert (length rest < n)%nat as Hlt.
      { apply (f_equal length) in Hs. rewrite length_app in Hs. lia. }
      destruct (IH (length rest) Hlt rest eq_refl) as [IHc _].
      rewrite (IHc _ (match_reference_last _ _ _ _ Hm)).
      destruct (lines_head rest) as (l0 & ls & tail & Hl & Hrest & _ & Htail).
      unfold copy_line, rewrite_lines. rewrite Hs.
      rewrite (lines_prepend _ _ _ _ Hterm Hl), (terminators_prepend _ _ Hterm), Hl.
      cbn [mapM].
      rewrite Hs, Hrest, app_assoc in Hm.
      apply match_reference_first_line in Hm as (rest' & Hr' & Hm).
      * apply app_inv_tail in Hr'. subst rest'.
        assert (rewrite_line ext f (m ++ l0) = r ← f m; Some (r ++ l0)) as ->.
        { unfold rewrite_line. by rewrite Hm. }
        destruct (f m) as [r|]; [|done]. cbn [mbind option_bind].
        destruct (mapM (rewrite_line ext f) ls) as [ls'|]; [|done]. cbn [mbind option_bind mret option_ret].
        by rewrite unlines_prepend.
      * destruct Htail as [->|(t & x & -> & Ht & _)]; [by left|right].
        exists t, x. split; [done|]. by apply line_terminator_is_space.
    + rewrite Hcopy. unfold copy_line, rewrite_lines.
      destruct (lines_head (c :: s')) as (l0 & ls & tail & Hl & Hs & _ & Htail).
      rewrite Hl. cbn [mapM].
      rewrite Hs in Hm. apply match_reference_first_line_None in Hm.
      * assert (rewrite_line ext f l0 = Some l0) as ->.
        { unfold rewrite_line. by rewrite Hm. }
        cbn [mbind option_bind].
        by destruct (mapM (rewrite_line ext f) ls).
      * destruct Htail as [->|(t & x & -> & Ht & _)]; [by left|right].
        exists t, x. split; [done|]. by apply line_terminator_is_space.
Qed.

(** *** Splitting and joining *)

Lemma lines_no_terminator (s : jsstring) :
  Forall (Forall (λ c, is_line_terminator c = false)) (lines s).
Proof.
  unfold lines. induction s as [|c s IH]; simpl; [by repeat constructor|].
  destruct (is_line_terminator c) eqn:Ec; [by repeat constructor|].
  destruct (split_by is_line_terminator s) as [|l ls]; [by repeat constructor|].
  apply List.Forall_cons_iff in IH as [Hl Hls]. by repeat constructor.
Qed.

Lemma length_lines (s : jsstring) : length (lines s) = Datatypes.S (length (terminators s)).
Proof.
  unfold lines, terminators. induction s as [|c s IH]; simpl; [done|].
  destruct (is_line_terminator c); simpl; [by rewrite IH|].
  destruct (split_by is_line_terminator s); simpl in *; lia.
Qed.

Lemma terminators_are_terminators (s : jsstring) :
  Forall (λ c, is_line_terminator c = true) (terminators s).
Proof.
  unfold terminators. induction s as [|c s IH]; simpl; [constructor|].
  destruct (is_line_terminator c) eqn:Ec; [by constructor|done].
Qed.

Lemma unlines_lines (s : jsstring) : unlines (lines s) (terminators s) = s.
Proof.
  unfold lines, terminators. induction s as [|c s IH]; simpl; [done|].
  destruct (is_line_terminator c) eqn:Ec; simpl; [by rewrite IH|].
  destruct (split_by is_line_terminator s) as [|l ls]; simpl in *.
  - by rewrite <- IH.
  - destruct (List.filter is_line_terminator s); simpl in *; by rewrite IH.
Qed.

Lemma lines_unlines (ls : list jsstring) (ts : list N) :
  Forall (Forall (λ c, is_line_terminator c = false)) ls →
  Forall (λ c, is_line_terminator c = true) ts →
  length ls = Datatypes.S (length ts) →
  lines (unlines ls ts) = ls ∧ terminators (unlines ls ts) = ts.
Proof.
  intros Hls. revert ts. induction Hls as [|l ls Hl Hls IH]; intros ts Hts Hlen; [done|].
  destruct Hts as [|t ts Ht Hts]; simpl in *.
  - destruct ls; [|done]. split.
    + rewrite <- (app_nil_r l). by apply lines_prepend.
    + rewrite <- (app_nil_r l). by rewrite terminators_prepend.
  - destruct (IH ts Hts ltac:(lia)) as [IHl IHt]. split.
    + replace (l :: ls) with ((l ++ []) :: ls) by (by rewrite app_nil_r).
      apply lines_prepend; [done|]. unfold lines in *. simpl. by rewrite Ht, IHl.
    + rewrite terminators_prepend by done. unfold terminators in *. simpl. by rewrite Ht, IHt.
Qed.

(** *** The characters of a token *)

Lemma list_ind3 {A : Type} (P : list A → Prop) :
  P [] → (∀ a, P [a]) → (∀ a b, P [a; b]) →
  (∀ a b c l, P l → P (a :: b :: c :: l)) → ∀ l, P l.
Proof.
  intros H0 H1 H2 H3.
  assert (∀ l, P l ∧ (∀ a, P (a :: l)) ∧ (∀ a b, P (a :: b :: l))) as H.
  { induction l as [|x l (IH0 & IH1 & IH2)]; [done|]. repeat split; [done|done|].
    intros a b. by apply H3. }
  intros l. apply H.
Qed.

Definition in_alphabet (c : N) : Prop := is_Some (Base64.char_digit c).

Lemma digit_char_in_alphabet (v : N) : in_alphabet (Base64.digit_char v).
Proof.
  unfold in_alphabet, Base64.digit_char, Base64.char_digit.
  repeat match goal with
         | |- context [N.ltb ?a ?b] => destruct (N.ltb_spec a b)
         | |- context [N.leb ?a ?b] => destruct (N.leb_spec a b)
         | |- context [N.eqb ?a ?b] => destruct (N.eqb_spec a b)
         | _ => progress simpl
         end; try lia. all: by eexists.
Qed.

Lemma in_alphabet_bounds (c : N) : in_alphabet c → 43 ≤ c ≤ 122 ∧ c ≠ 61.
Proof.
  unfold in_alphabet, Base64.char_digit. intros [v Hv]. revert Hv.
  repeat match goal with
         | |- context [N.leb ?a ?b] => destruct (N.leb_spec a b)
         | |- context [N.eqb ?a ?b] => destruct (N.eqb_spec a b)
         | _ => progress simpl
         end; intros; try discriminate; lia.
Qed.

Lemma in_alphabet_not_space (c : N) : in_alphabet c → is_space c = false.
Proof.
  intros [H1 H2]%in_alphabet_bounds. unfold is_space, is_line_terminator.
  repeat match goal with
         | |- context [N.eqb c ?k] => rewrite (proj2 (N.eqb_neq c k)) by lia
         end.
  rewrite (proj2 (N.leb_gt 8192 c)) by lia. reflexivity.
Qed.

Lemma encode_bytes_chars (s : jsstring) :
  Forall (λ c, c = Base64.pad ∨ in_alphabet c) (Base64.encode_bytes s).
Proof.
  induction s as [|a|a b|a b c s IH] using list_ind3; simpl;
    repeat first [ assumption | apply List.Forall_nil | apply List.Forall_cons ];
    first [ by left | right; apply digit_char_in_alphabet ].
Qed.

Lemma encode_in_alphabet (s t : jsstring) : encode s = Some t → Forall in_alphabet t.
Proof.
  unfold encode, Base64.btoa. destruct (forallb _ s); [|done]. intros [= <-].
  unfold remove_equals. pose proof (encode_bytes_chars s) as H.
  induction H as [|c l [->|Hc] Hl IH]; simpl; [constructor|done|].
  destruct (N.eqb_spec c (ch "=")) as [->|]; simpl; [done|]. by constructor.
Qed.

Lemma encode_latin1 (s : jsstring) : Forall (λ c, c ≤ 255) s → is_Some (encode s).
Proof.
  intros H. unfold encode, Base64.btoa.
  assert (forallb (λ c, c <=? 255) s = true) as ->; [|by eexists].
  apply forallb_forall. intros c Hc. apply N.leb_le.
  rewrite List.Forall_forall in H. by apply H.
Qed.

(** *** The rewriter as a map over lines *)

Definition playlist_pattern (filename : jsstring) : jsstring :=
  if str_eqb filename (js "master.m3u8") then js ".m3u8" else js ".ts".

Definition playlist_callback (origin sessionPath filename quality : jsstring)
    : jsstring → option jsstring :=
  if str_eqb filename (js "master.m3u8") then master_callback origin sessionPath
  else media_callback origin sessionPath quality.

Lemma rewritePlaylist_lines (origin S filename quality body : jsstring) :
  rewritePlaylist origin S filename quality body
  = rewrite_lines (playlist_pattern filename)
      (playlist_callback origin S filename quality) body.
Proof.
  unfold rewritePlaylist, playlist_pattern, playlist_callback.
  destruct (str_eqb filename (js "master.m3u8")); apply replace_references_lines.
Qed.

Lemma in_alphabet_no_terminator (t : jsstring) :
  Forall in_alphabet t → Forall (λ c, is_line_terminator c = false) t.
Proof.
  intros H. apply no_space_no_terminator.
  eapply List.Forall_impl; [|exact H]. apply in_alphabet_not_space.
Qed.

Lemma Forall_false_literal (p : N → bool) (l : jsstring) :
  forallb (λ c, negb (p c)) l = true → Forall (λ c, p c = false) l.
Proof.
  intros H. apply List.Forall_forall. intros c Hc.
  rewrite forallb_forall in H. specialize (H c Hc). by destruct (p c).
Qed.

Lemma playlist_callback_no_terminator (origin S filename quality m r : jsstring) :
  Forall (λ c, is_line_terminator c = false) origin →
  Forall (λ c, is_line_terminator c = false) S →
  playlist_callback origin S filename quality m = Some r →
  Forall (λ c, is_line_terminator c = false) r.
Proof.
  intros Ho Hs. unfold playlist_callback, master_callback, media_callback.
  destruct (str_eqb filename (js "master.m3u8")).
  - destruct (encode (detectedQuality m)) as [qb|] eqn:Eq; [|done].
    destruct (encode (js "index.m3u8")) as [fb|] eqn:Ef; [|done].
    intros H. apply (inj Some) in H. rewrite <- H.
    apply encode_in_alphabet, in_alphabet_no_terminator in Eq, Ef.
    repeat apply Forall_app_2; first [assumption | by apply Forall_false_literal].
  - destruct (encode (pop (split (ch "/") m))) as [fb|] eqn:Ef; [|done].
    destruct (encode quality) as [qb|] eqn:Eq; [|done].
    intros H. apply (inj Some) in H. rewrite <- H.
    apply encode_in_alphabet, in_alphabet_no_terminator in Eq, Ef.
    repeat apply Forall_app_2; first [assumption | by apply Forall_false_literal].
Qed.

(** A line that starts with [#] and a line of white space only (an empty
    line included) hold no reference. *)
Lemma directive_line_no_match (ext l : jsstring) :
  startsWith (js "#") l = true → match_reference ext l = None.
Proof.
  intros [t ->]%startsWith_true. reflexivity.
Qed.

Lemma blank_line_no_match (ext l : jsstring) :
  Forall (λ c, is_space c = true) l → match_reference ext l = None.
Proof.
  intros Hl. destruct Hl as [|c l Hc _]; [done|]. unfold match_reference.
  destruct (N.eqb_spec c (ch "#")) as [->|]; [done|].
  assert (match_absolute (c :: l) = None) as ->.
  { unfold match_absolute. change (js "http") with (104 :: js "ttp"). simpl.
    destruct (N.eqb_spec 104 c) as [<-|]; [done|done]. }
  unfold match_relative. by rewrite Hc, orb_true_r.
Qed.

Lemma rewrite_line_cases (pat : jsstring) (cb : jsstring → option jsstring)
    (l l' : jsstring) :
  rewrite_line pat cb l = Some l' →
  l' = l ∨ ∃ m rest r, match_reference pat l = Some (m, rest)
             ∧ cb m = Some r ∧ l = m ++ rest ∧ l' = r ++ rest.
Proof.
  unfold rewrite_line. destruct (match_reference pat l) as [[m rest]|] eqn:Hm.
  - destruct (cb m) as [r|] eqn:Hr; [|done]. intros [= <-]. right.
    exists m, rest, r. by apply match_reference_split in Hm as [-> _].
  - intros [= <-]. by left.
Qed.

(** The rewritten playlist has the lines of the original, each put through
    [rewrite_line], with the original's line terminators between them. *)
Lemma rewritePlaylist_by_line (origin S filename quality body out : jsstring) :
  Forall (λ c, is_line_terminator c = false) origin →
  Forall (λ c, is_line_terminator c = false) S →
  rewritePlaylist origin S filename quality body = Some out →
  terminators out = terminators body
  ∧ Forall2 (λ l l', rewrite_line (playlist_pattern filename)
                       (playlist_callback origin S filename quality) l = Some l')
      (lines body) (lines out).
Proof.
  intros Ho Hs. rewrite rewritePlaylist_lines. unfold rewrite_lines.
  set (pat := playlist_pattern filename).
  set (cb := playlist_callback origin S filename quality).
  destruct (mapM (rewrite_line pat cb) (lines body)) as [ls'|] eqn:Hmap; [|done].
  intros [= <-]. apply mapM_Some in Hmap.
  assert (Forall (Forall (λ c, is_line_terminator c = false)) ls') as Hnt.
  { pose proof (lines_no_terminator body) as Hb.
    induction Hmap as [|l l' ls ls1 Hl Hmap IH]; [constructor|].
    apply List.Forall_cons_iff in Hb as [Hbl Hb]. constructor; [|by apply IH].
    destruct (rewrite_line_cases _ _ _ _ Hl) as [->|(m & rest & r & _ & Hr & -> & ->)]; [done|].
    apply Forall_app in Hbl as [_ Hrest]. apply Forall_app. split; [|done].
    by apply (playlist_callback_no_terminator _ _ _ _ _ _ Ho Hs Hr). }
  destruct (lines_unlines ls' (terminators body) Hnt (terminators_are_terminators body))
    as [Hlines Hterm].
  { rewrite <- (Forall2_length Hmap). apply length_lines. }
  by rewrite Hlines, Hterm.
Qed.

(** X2.  Whenever the rewriter returns a playlist (the proxy origin and the
    session id holding no line terminator, as parts of a URL): the output
    has as many lines as the input, separated by the same terminators in the
    same order; a line that starts with [#] and a blank line come out
    unchanged at the same position; and every other line comes out at its
    position either unchanged or with the reference at its head, and nothing
    else, replaced.  Lines are the lines of the patterns' [^]: they end at LF,
    CR, U+2028 and U+2029. *)
Theorem rewrite_preserves_lines (origin S filename quality body out : jsstring) :
  Forall (λ c, is_line_terminator c = false) origin →
  Forall (λ c, is_line_terminator c = false) S →
  rewritePlaylist origin S filename quality body = Some out →
  length (lines out) = length (lines body)
  ∧ terminators out = terminators body
  ∧ (∀ (i : nat) (l : jsstring), lines body !! i = Some l →
       startsWith (js "#") l = true ∨ Forall (λ c, is_space c = true) l →
       lines out !! i = Some l)
  ∧ (∀ (i : nat) (l : jsstring), lines body !! i = Some l →
       lines out !! i = Some l
       ∨ ∃ m rest r,
           match_reference (playlist_pattern filename) l = Some (m, rest)
           ∧ playlist_callback origin S filename quality m = Some r
           ∧ l = m ++ rest
           ∧ lines out !! i = Some (r ++ rest)).
Proof.
  intros Ho Hs Hout.
  destruct (rewritePlaylist_by_line _ _ _ _ _ _ Ho Hs Hout) as [Hterm Hmap].
  split; [by rewrite <- (Forall2_length Hmap)|]. split; [done|]. split.
  - intros i l Hi Hl. destruct (Forall2_lookup_l _ _ _ _ _ Hmap Hi) as (l' & Hi' & Hl').
    rewrite Hi'. f_equal. unfold rewrite_line in Hl'.
    destruct Hl as [Hl|Hl].
    + rewrite (directive_line_no_match _ _ Hl) in Hl'. congruence.
    + rewrite (blank_line_no_match _ _ Hl) in Hl'. congruence.
  - intros i l Hi. destruct (Forall2_lookup_l _ _ _ _ _ Hmap Hi) as (l' & Hi' & Hl').
    destruct (rewrite_line_cases _ _ _ _ Hl') as [->|(m & rest & r & Hm & Hr & Hl & ->)];
      [by left|].
    right. by exists m, rest, r.
Qed.

Lemma rewrite_preserves_lines_witness :
  let body := js "#EXTM3U" ++ LF ++ js "#EXTINF:4.0," ++ LF ++ js "seg001.ts" ++ LF in
  ∃ out,
    rewritePlaylist (js "https://proxy.example") (js "abc") (js "index.m3u8") (js "720p") body
    = Some out
    ∧ length (lines out) = length (lines body)
    ∧ lines out !! 1%nat = Some (js "#EXTINF:4.0,").
Proof.
  intros body.
  exists (js "#EXTM3U" ++ LF ++ js "#EXTINF:4.0," ++ LF
          ++ js "https://proxy.example/file2/abc/NzIwcA/c2VnMDAxLnRz" ++ LF).
  assert (rewritePlaylist (js "https://proxy.example") (js "abc") (js "index.m3u8")
            (js "720p") body
          = Some (js "#EXTM3U" ++ LF ++ js "#EXTINF:4.0," ++ LF
                  ++ js "https://proxy.example/file2/abc/NzIwcA/c2VnMDAxLnRz" ++ LF)) as Hout.
  { vm_compute. reflexivity. }
  split; [exact Hout|].
  destruct (rewrite_preserves_lines _ _ _ _ _ _
              (Forall_false_literal is_line_terminator (js "https://proxy.example") eq_refl)
              (Forall_false_literal is_line_terminator (js "abc") eq_refl) Hout)
    as (Hlen & _ & Hkeep & _).
  split; [exact Hlen|]. apply Hkeep; [reflexivity|]. left. reflexivity.
Defined.

(** *** The rewriter returns *)

Lemma split_by_Forall (P : N → Prop) (p : N → bool) (s : jsstring) :
  Forall P s → Forall (Forall P) (split_by p s).
Proof.
  induction 1 as [|c s Hc Hs IH]; simpl; [by repeat constructor|].
  destruct (p c); [by repeat constructor|].
  destruct (split_by p s) as [|l ls]; [by repeat constructor|].
  apply List.Forall_cons_iff in IH as [Hl Hls]. by repeat constructor.
Qed.

Lemma pop_Forall (P : N → Prop) (parts : list jsstring) :
  Forall (Forall P) parts → Forall P (pop parts).
Proof.
  unfold pop. induction 1 as [|l ls Hl Hls IH]; simpl; [constructor|].
  by destruct ls.
Qed.

Lemma span_is_digit_latin1 (s : jsstring) : Forall (λ c, c ≤ 255) (span is_digit s).1.
Proof.
  eapply List.Forall_impl; [|apply span_forall]. unfold is_digit. intros c Hc. simpl in Hc.
  apply andb_true_iff in Hc as [_ Hc]. apply N.leb_le in Hc. lia.
Qed.

Lemma quality_group_latin1 (s q : jsstring) :
  quality_group s = Some q → Forall (λ c, c ≤ 255) q.
Proof.
  unfold quality_group. pose proof (span_is_digit_latin1 s) as Hd.
  destruct (span is_digit s) as [digits t]. simpl in Hd.
  destruct digits as [|d digits].
  - repeat (case_match; [intros [= <-]; apply List.Forall_forall; intros c Hc;
                         repeat (destruct Hc as [<-|Hc]; [vm_compute; discriminate|]);
                         destruct Hc|]). done.
  - destruct t as [|c t]; [done|]. destruct (c =? ch "p").
    + destruct (startsWith (js "/") t); [|done]. intros [= <-].
      apply (Forall_app_2 _ (d :: digits)); [done|]. repeat constructor.
      vm_compute. discriminate.
    + destruct (c =? ch "/"); [|done]. by intros [= <-].
Qed.

Lemma detectedQuality_latin1 (m : jsstring) : Forall (λ c, c ≤ 255) (detectedQuality m).
Proof.
  unfold detectedQuality.
  destruct (quality_match m) as [q|] eqn:E.
  - induction m as [|c m IH]; [done|]. simpl in E.
    destruct (c =? ch "/").
    + destruct (quality_group m) as [q'|] eqn:Eg; [|by apply IH].
      injection E as <-. by apply quality_group_latin1 in Eg.
    + by apply IH.
  - apply List.Forall_forall. intros c Hc.
    repeat (destruct Hc as [<-|Hc]; [vm_compute; discriminate|]). destruct Hc.
Qed.

Lemma mapM_total {A B : Type} (f : A → option B) (l : list A) :
  Forall (λ x, is_Some (f x)) l → is_Some (mapM f l).
Proof.
  induction 1 as [|x l [y Hy] Hl [k Hk]]; simpl; [by eexists|].
  rewrite Hy. simpl. rewrite Hk. by eexists.
Qed.

(** X3.  A master playlist is always rewritten: no call of [btoa] in the
    master callback can raise, whatever the playlist holds. *)
Lemma rewritePlaylist_master_total (origin S quality body : jsstring) :
  is_Some (rewritePlaylist origin S (js "master.m3u8") quality body).
Proof.
  rewrite rewritePlaylist_lines. unfold rewrite_lines.
  destruct (mapM_total (rewrite_line (playlist_pattern (js "master.m3u8"))
              (playlist_callback origin S (js "master.m3u8") quality)) (lines body))
    as [ls' ->]; [|by eexists].
  apply List.Forall_forall. intros l _. unfold rewrite_line.
  destruct (match_reference _ l) as [[m rest]|]; [|by eexists].
  change (playlist_callback origin S (js "master.m3u8") quality)
    with (master_callback origin S).
  unfold master_callback.
  destruct (encode_latin1 _ (detectedQuality_latin1 m)) as [qb ->].
  change (encode (js "index.m3u8")) with (Some (js "aW5kZXgubTN1OA")). by eexists.
Qed.

(** X4.  A media playlist is rewritten when the body and the quality are
    Latin-1 (as the quality that [atob] returns always is); otherwise [btoa]
    may raise, and the request is answered 500. *)
Lemma rewritePlaylist_media_total (origin S filename quality body : jsstring) :
  filename ≠ js "master.m3u8" →
  Forall (λ c, c ≤ 255) body → Forall (λ c, c ≤ 255) quality →
  is_Some (rewritePlaylist origin S filename quality body).
Proof.
  intros Hf Hb Hq. rewrite rewritePlaylist_lines. unfold rewrite_lines.
  unfold playlist_pattern, playlist_callback. apply str_eqb_neq in Hf. rewrite Hf.
  destruct (mapM_total (rewrite_line (js ".ts") (media_callback origin S quality))
              (lines body)) as [ls' ->]; [|by eexists].
  pose proof (split_by_Forall _ is_line_terminator _ Hb) as Hl.
  eapply List.Forall_impl; [|exact Hl]. intros l Hl'. unfold rewrite_line.
  destruct (match_reference _ l) as [[m rest]|] eqn:Hm; [|by eexists].
  apply match_reference_split in Hm as [-> _]. apply Forall_app in Hl' as [Hm _].
  unfold media_callback.
  destruct (encode_latin1 _ (pop_Forall _ _ (split_by_Forall _ (λ c, c =? ch "/") _ Hm)))
    as [fb Hfb].
  unfold split. rewrite Hfb. destruct (encode_latin1 _ Hq) as [qb ->]. by eexists.
Qed.

Lemma latin1_literal (l : jsstring) :
  forallb (λ c, c <=? 255) l = true → Forall (λ c, c ≤ 255) l.
Proof.
  intros H. apply List.Forall_forall. intros c Hc.
  rewrite forallb_forall in H. by apply N.leb_le, H.
Qed.

Lemma rewritePlaylist_media_total_witness :
  is_Some (rewritePlaylist (js "https://proxy.example") (js "abc") (js "index.m3u8")
             (js "720p") (js "#EXTINF:4.0," ++ LF ++ js "seg001.ts")).
Proof.
  apply rewritePlaylist_media_total.
  - vm_compute. discriminate.
  - by apply latin1_literal.
  - by apply latin1_literal.
Defined.

(** ** Media playlists *)

Lemma split_by_nonempty (p : N → bool) (s : jsstring) : split_by p s ≠ [].
Proof. destruct s as [|c s]; simpl; [done|]. destruct (p c); [done|]. by destruct (split_by p s). Qed.

Lemma split_by_separator (p : N → bool) (a b : jsstring) (t : N) :
  p t = true → split_by p (a ++ t :: b) = split_by p a ++ split_by p b.
Proof.
  intros Ht. induction a as [|c a IH]; simpl; [by rewrite Ht|].
  destruct (p c); [by rewrite IH|]. rewrite IH.
  pose proof (split_by_nonempty p a). by destruct (split_by p a).
Qed.

Lemma split_by_no_separator (p : N → bool) (s : jsstring) :
  Forall (λ c, p c = false) s → split_by p s = [s].
Proof. induction 1 as [|c s Hc Hs IH]; simpl; [done|]. by rewrite Hc, IH. Qed.

Lemma pop_app (xs ys : list jsstring) : ys ≠ [] → pop (xs ++ ys) = pop ys.
Proof.
  intros Hy. unfold pop. induction xs as [|x xs IH]; simpl; [done|].
  rewrite IH. destruct (xs ++ ys) eqn:E; [|done]. by apply app_eq_nil in E as [_ ->].
Qed.

(** [match.split('/').pop()] is the text after the last slash. *)
Lemma pop_split_name (dir name : jsstring) :
  ch "/" ∉ name → dir = [] ∨ (∃ d, dir = d ++ js "/") →
  pop (split (ch "/") (dir ++ name)) = name.
Proof.
  intros Hname Hdir. unfold split.
  assert (split_by (λ c, c =? ch "/") name = [name]) as Hn.
  { apply split_by_no_separator. apply List.Forall_forall. intros c Hc.
    apply N.eqb_neq. intros ->. apply Hname. by apply list_elem_of_In. }
  destruct Hdir as [->|[d ->]]; [by rewrite app_nil_l, Hn|].
  rewrite <- app_assoc. change (js "/" ++ name) with (ch "/" :: name).
  rewrite split_by_separator by apply N.eqb_refl. rewrite pop_app; by rewrite Hn.
Qed.

(** X5.  In a media playlist (any requested filename other than
    [master.m3u8]) rewritten for session [S] and quality [720p], the line
    [seg001.ts] becomes [{origin}/file2/S/NzIwcA/c2VnMDAxLnRz], the two tokens
    being the encodings of [720p] and of [seg001.ts], with nothing after
    them; and every line whose head is a segment reference [dir ++ name]
    ([name] free of slashes, [dir] empty or ending in a slash) becomes the
    proxy URL whose filename token encodes [name] alone, followed by the rest
    of the line. *)
Theorem media_segment_rewrite (origin S filename body out : jsstring) :
  filename ≠ js "master.m3u8" →
  Forall (λ c, is_line_terminator c = false) origin →
  Forall (λ c, is_line_terminator c = false) S →
  (encode (js "720p") = Some (js "NzIwcA")
   ∧ encode (js "seg001.ts") = Some (js "c2VnMDAxLnRz")
   ∧ (rewritePlaylist origin S filename (js "720p") body = Some out →
      ∀ i : nat, lines body !! i = Some (js "seg001.ts") →
        lines out !! i
        = Some (origin ++ js "/file2/" ++ S ++ js "/" ++ js "NzIwcA" ++ js "/"
                ++ js "c2VnMDAxLnRz")))
  ∧ (∀ (quality : jsstring) (i : nat) (l m rest dir name : jsstring),
       rewritePlaylist origin S filename quality body = Some out →
       lines body !! i = Some l →
       match_reference (js ".ts") l = Some (m, rest) →
       m = dir ++ name → ch "/" ∉ name → dir = [] ∨ (∃ d, dir = d ++ js "/") →
       ∃ qualityB64 segmentB64,
         encode quality = Some qualityB64 ∧ encode name = Some segmentB64
         ∧ lines out !! i
           = Some ((origin ++ js "/file2/" ++ S ++ js "/" ++ qualityB64 ++ js "/"
                    ++ segmentB64) ++ rest)).
Proof.
  intros Hf Ho Hs.
  assert (∀ (quality : jsstring) (i : nat) (l m rest dir name : jsstring),
       rewritePlaylist origin S filename quality body = Some out →
       lines body !! i = Some l →
       match_reference (js ".ts") l = Some (m, rest) →
       m = dir ++ name → ch "/" ∉ name → dir = [] ∨ (∃ d, dir = d ++ js "/") →
       ∃ qualityB64 segmentB64,
         encode quality = Some qualityB64 ∧ encode name = Some segmentB64
         ∧ lines out !! i
           = Some ((origin ++ js "/file2/" ++ S ++ js "/" ++ qualityB64 ++ js "/"
                    ++ segmentB64) ++ rest)) as Hgen.
  { intros quality i l m rest dir name Hout Hi Hm -> Hname Hdir.
    destruct (rewritePlaylist_by_line _ _ _ _ _ _ Ho Hs Hout) as [_ Hmap].
    destruct (Forall2_lookup_l _ _ _ _ _ Hmap Hi) as (l' & Hi' & Hl').
    unfold playlist_pattern, playlist_callback, rewrite_line in Hl'.
    apply str_eqb_neq in Hf. rewrite Hf, Hm in Hl'.
    unfold media_callback in Hl'. rewrite (pop_split_name _ _ Hname Hdir) in Hl'.
    destruct (encode name) as [fb|]; [|done]. destruct (encode quality) as [qb|]; [|done].
    exists qb, fb. split; [done|]. split; [done|]. rewrite Hi'. f_equal.
    cbn [mbind option_bind] in Hl'. by injection Hl' as <-. }
  split; [|exact Hgen].
  split; [reflexivity|]. split; [reflexivity|]. intros Hout i Hi.
  destruct (Hgen (js "720p") i (js "seg001.ts") (js "seg001.ts") [] [] (js "seg001.ts")
              Hout Hi eq_refl eq_refl) as (qb & fb & Hq & Hfb & Hline).
  - intros Hin. apply list_elem_of_In in Hin. vm_compute in Hin. intuition discriminate.
  - by left.
  - rewrite Hline. change (encode (js "720p")) with (Some (js "NzIwcA")) in Hq.
    change (encode (js "seg001.ts")) with (Some (js "c2VnMDAxLnRz")) in Hfb.
    injection Hq as <-. injection Hfb as <-. by rewrite app_nil_r.
Qed.

Lemma media_segment_rewrite_witness :
  let body := js "#EXTINF:4.0," ++ LF ++ js "https://cdn.example/v/720p/seg001.ts rest" in
  let out := js "#EXTINF:4.0," ++ LF
             ++ js "https://proxy.example/file2/abc/NzIwcA/c2VnMDAxLnRz rest" in
  lines out !! 1%nat
  = Some ((js "https://proxy.example" ++ js "/file2/" ++ js "abc" ++ js "/" ++ js "NzIwcA"
           ++ js "/" ++ js "c2VnMDAxLnRz") ++ js " rest").
Proof.
  intros body out.
  destruct (media_segment_rewrite (js "https://proxy.example") (js "abc") (js "index.m3u8")
              body out) as [_ Hgen].
  - vm_compute. discriminate.
  - by apply Forall_false_literal.
  - by apply Forall_false_literal.
  - destruct (Hgen (js "720p") 1%nat (js "https://cdn.example/v/720p/seg001.ts rest")
                (js "https://cdn.example/v/720p/seg001.ts") (js " rest")
                (js "https://cdn.example/v/720p/") (js "seg001.ts"))
      as (qb & fb & Hq & Hfb & Hline).
    + vm_compute. reflexivity.
    + reflexivity.
    + reflexivity.
    + reflexivity.
    + intros Hin. apply list_elem_of_In in Hin. vm_compute in Hin. intuition discriminate.
    + right. by exists (js "https://cdn.example/v/720p").
    + rewrite Hline.
      change (encode (js "720p")) with (Some (js "NzIwcA")) in Hq.
      change (encode (js "seg001.ts")) with (Some (js "c2VnMDAxLnRz")) in Hfb.
      injection Hq as <-. injection Hfb as <-. reflexivity.
Defined.

(** ** What the rewritten playlist shows of the origin *)

(** [h] occurs in [s]: what [s.includes(h)] decides. *)
Definition occurs (h s : jsstring) : Prop := ∃ a b, s = a ++ h ++ b.

Lemma includes_occurs (h s : jsstring) : includes h s = true ↔ occurs h s.
Proof.
  split.
  - induction s as [|c s IH]; simpl.
    + rewrite orb_false_r. intros [t Ht]%startsWith_true. by exists [], t.
    + intros [[t Ht]%startsWith_true|H]%orb_true_iff; [by exists [], t|].
      destruct (IH H) as (a & b & ->). by exists (c :: a), b.
  - intros (a & b & ->). induction a as [|c a IH]; simpl.
    + assert (startsWith h (h ++ b) = true) as Hs by (apply startsWith_true; by exists b).
      destruct (h ++ b); simpl; by rewrite Hs.
    + by rewrite IH, orb_true_r.
Qed.

Lemma includes_not_occurs (h s : jsstring) : includes h s = false ↔ ¬ occurs h s.
Proof.
  rewrite <- includes_occurs. by destruct (includes h s).
Qed.

Lemma occurs_Forall (P : N → Prop) (h s : jsstring) : occurs h s → Forall P s → Forall P h.
Proof. intros (a & b & ->) H. by apply Forall_app in H as [_ [H _]%Forall_app]. Qed.

Lemma occurs_prefix (h a b t y : jsstring) (c : N) :
  c ∉ h → h ++ y = a ++ c :: b → ∃ a', a = h ++ a'.
Proof.
  revert a. induction h as [|d h IH]; intros a Hc E; [by exists a|].
  apply not_elem_of_cons in Hc as [Hd Hc].
  destruct a as [|e a]; simpl in E.
  - injection E as -> _. by destruct Hd.
  - injection E as -> E. destruct (IH a Hc E) as [a' ->]. by exists a'.
Qed.

(** An occurrence of [h] cannot straddle a code unit that [h] lacks. *)
Lemma occurs_separator (h a b : jsstring) (c : N) :
  c ∉ h → occurs h (a ++ c :: b) → occurs h a ∨ occurs h b.
Proof.
  intros Hc (x & y & E). revert a E. induction x as [|d x IH]; intros a E.
  - left. simpl in E. symmetry in E. destruct (occurs_prefix h a b [] y c Hc E) as [a' ->].
    by exists [], a'.
  - destruct a as [|e a]; simpl in E.
    + right. injection E as _ ->. by exists x, y.
    + injection E as -> E. destruct (IH a E) as [(u & v & ->)|H]; [left|by right].
      by exists (d :: u), v.
Qed.

Lemma occurs_unlines (h : jsstring) (ls : list jsstring) (ts : list N) :
  h ≠ [] → Forall (λ c, c ∉ h) ts →
  occurs h (unlines ls ts) → ∃ l, l ∈ ls ∧ occurs h l.
Proof.
  intros Hh Hts. revert ls. induction Hts as [|t ts Ht Hts IH]; intros ls.
  - destruct ls as [|l ls]; simpl.
    + intros (a & b & E). symmetry in E. apply app_eq_nil in E as [_ [E _]%app_eq_nil]. done.
    + intros H. exists l. split; [by left|done].
  - destruct ls as [|l ls]; simpl.
    + intros (a & b & E). symmetry in E. apply app_eq_nil in E as [_ [E _]%app_eq_nil]. done.
    + intros [H|H]%occurs_separator; [|by apply IH in H as (l' & ? & ?); exists l'; split;
                                          [by right|]|done].
      exists l. split; [by left|done].
Qed.

Lemma occurs_in_alphabet (h s : jsstring) :
  Exists (λ c, Base64.char_digit c = None) h → Forall in_alphabet s → ¬ occurs h s.
Proof.
  intros Hex Hs Hocc. apply (occurs_Forall _ _ _ Hocc) in Hs.
  apply List.Exists_exists in Hex as (c & Hc & Hnone).
  rewrite List.Forall_forall in Hs. destruct (Hs c Hc) as [v Hv]. congruence.
Qed.

Lemma literal_in_alphabet (s : jsstring) :
  forallb (λ c, bool_decide (is_Some (Base64.char_digit c))) s = true → Forall in_alphabet s.
Proof.
  intros H. apply List.Forall_forall. intros c Hc. rewrite forallb_forall in H.
  specialize (H c Hc). by apply bool_decide_eq_true in H.
Qed.

(** The proxy URL of a reference shows nothing of the host. *)
Lemma playlist_callback_hides (origin S filename quality m r host : jsstring) :
  ch "/" ∉ host →
  Exists (λ c, Base64.char_digit c = None) host →
  includes host origin = false →
  includes host S = false →
  (filename = js "master.m3u8" → includes host (js "aW5kZXgubTN1OA.m3u8") = false) →
  playlist_callback origin S filename quality m = Some r →
  ¬ occurs host r.
Proof.
  intros Hslash Hex Ho%includes_not_occurs Hs%includes_not_occurs Hidx.
  unfold playlist_callback, master_callback, media_callback.
  assert (¬ occurs host (js "file2")) as Hfile2.
  { apply occurs_in_alphabet; [done|]. by apply literal_in_alphabet. }
  destruct (str_eqb filename (js "master.m3u8")) eqn:Ef.
  - apply str_eqb_eq in Ef. specialize (Hidx Ef). apply includes_not_occurs in Hidx.
    destruct (encode (detectedQuality m)) as [qb|] eqn:Eq; [|done].
    change (encode (js "index.m3u8")) with (Some (js "aW5kZXgubTN1OA")).
    intros H. apply (inj Some) in H. rewrite <- H.
    apply encode_in_alphabet in Eq.
    change (js "/file2/" ++ S ++ js "/" ++ qb ++ js "/" ++ js "aW5kZXgubTN1OA" ++ js ".m3u8")
      with (ch "/" :: js "file2" ++ ch "/" :: S ++ ch "/" :: qb
            ++ ch "/" :: js "aW5kZXgubTN1OA.m3u8").
    intros [H1|H1]%occurs_separator; [done| |done].
    apply occurs_separator in H1 as [H1|H1]; [done| |done].
    apply occurs_separator in H1 as [H1|H1]; [done| |done].
    apply occurs_separator in H1 as [H1|H1]; [|done|done].
    by apply (occurs_in_alphabet host qb).
  - destruct (encode (pop (split (ch "/") m))) as [fb|] eqn:Efb; [|done].
    destruct (encode quality) as [qb|] eqn:Eq; [|done].
    intros H. apply (inj Some) in H. rewrite <- H.
    apply encode_in_alphabet in Eq, Efb.
    change (js "/file2/" ++ S ++ js "/" ++ qb ++ js "/" ++ fb)
      with (ch "/" :: js "file2" ++ ch "/" :: S ++ ch "/" :: qb ++ ch "/" :: fb).
    intros [H1|H1]%occurs_separator; [done| |done].
    apply occurs_separator in H1 as [H1|H1]; [done| |done].
    apply occurs_separator in H1 as [H1|H1]; [done| |done].
    apply occurs_separator in H1 as [H1|H1]; [|by apply (occurs_in_alphabet host fb)|done].
    by apply (occurs_in_alphabet host qb).
Qed.

(** What a line may hold for the host to stay hidden: no occurrence of the
    host outside the reference at its head, and white space (or nothing)
    right after that reference. *)
Definition line_hides (pattern host l : jsstring) : Prop :=
  match match_reference pattern l with
  | None => includes host l = false
  | Some (m, rest) =>
      includes host rest = false
      ∧ (rest = [] ∨ ∃ t x, rest = t :: x ∧ is_space t = true)
  end.

Definition leaking_playlist : jsstring :=
  js "#EXTM3U" ++ LF ++ js " https://cdn.example/v/720p/seg001.ts" ++ LF
  ++ js "/v/720p/seg002.ts".

Definition leaking_store : store :=
  storeSession ∅ 1700000000000 (JStr (js "abc"))
    (JStr (js "https://cdn.example/v/master.m3u8")) None.

(** A reference line that starts with white space is not matched and is
    returned as it came, origin URL included; so is a directive line that
    carries a URI.  The first is shown on a whole proxy
    request, the second on the rewriter alone. *)
Lemma rewritten_playlist_shows_origin :
  resp_body (out_response
    (fetch (Env 1700000000001 (sample_upstream leaking_playlist)) leaking_store
       (Request (js "GET") (js "https://proxy.example")
          (js "/file2/abc/NzIwcA/aW5kZXgubTN1OA.m3u8") None)))
  = BodyText leaking_playlist
  ∧ includes (js "cdn.example") leaking_playlist = true
  ∧ rewritePlaylist (js "https://proxy.example") (js "abc") (js "master.m3u8") (js "720p")
      (js "#EXT-X-MEDIA:TYPE=AUDIO,URI=https://cdn.example/v/audio.m3u8")
    = Some (js "#EXT-X-MEDIA:TYPE=AUDIO,URI=https://cdn.example/v/audio.m3u8").
Proof. repeat split; vm_compute; reflexivity. Qed.

(** X6.  Let the host be a non-empty string without white space and
    without slash that holds a code unit outside the base64 alphabet (a dot,
    say), and that occurs neither in the proxy origin nor in the session id
    nor, for a master playlist, in the fixed tail [aW5kZXgubTN1OA.m3u8].
    Let every line of the origin playlist be of one of two kinds: a line in
    which the rewriter matches no reference and which does not contain the
    host; or a line in which the rewriter matches a reference at the head,
    where that reference (whether it holds the host or not) is followed by
    white space or by the end of the line, and the host does not occur in the
    rest of the line after it.  Then the rewritten playlist does not contain
    the host.  Without the condition on what follows a reference the host
    can appear across the end of a token and the text after it. *)
Theorem rewrite_hides_matched_references
    (origin S filename quality body out host : jsstring) :
  host ≠ [] →
  Forall (λ c, is_space c = false) host →
  ch "/" ∉ host →
  Exists (λ c, Base64.char_digit c = None) host →
  includes host origin = false →
  includes host S = false →
  (filename = js "master.m3u8" → includes host (js "aW5kZXgubTN1OA.m3u8") = false) →
  Forall (λ c, is_line_terminator c = false) origin →
  Forall (λ c, is_line_terminator c = false) S →
  Forall (line_hides (playlist_pattern filename) host) (lines body) →
  rewritePlaylist origin S filename quality body = Some out →
  includes host out = false.
Proof.
  intros Hne Hsp Hslash Hex Hio His Hidx Ho Hs Hlines Hout.
  apply includes_not_occurs. intros Hocc.
  destruct (rewritePlaylist_by_line _ _ _ _ _ _ Ho Hs Hout) as [Hterm Hmap].
  rewrite <- (unlines_lines out) in Hocc.
  assert (∀ c, is_space c = true → c ∉ host) as Hnot.
  { intros c Hc Hin. rewrite List.Forall_forall in Hsp.
    apply list_elem_of_In in Hin. specialize (Hsp c Hin). congruence. }
  apply occurs_unlines in Hocc as (l' & Hl' & Hocc); [|done|].
  2:{ eapply List.Forall_impl; [|apply terminators_are_terminators].
      intros c Hc. by apply Hnot, line_terminator_is_space. }
  apply list_elem_of_lookup in Hl' as [i Hi].
  destruct (Forall2_lookup_r _ _ _ _ _ Hmap Hi) as (l & Hil & Hrl).
  rewrite List.Forall_forall in Hlines.
  assert (line_hides (playlist_pattern filename) host l) as Hl.
  { apply Hlines. apply list_elem_of_In. by eapply list_elem_of_lookup_2. }
  unfold line_hides in Hl. unfold rewrite_line in Hrl.
  destruct (match_reference (playlist_pattern filename) l) as [[m rest]|].
  - destruct Hl as [Hrest%includes_not_occurs Hshape].
    destruct (playlist_callback origin S filename quality m) as [r|] eqn:Hr; [|done].
    injection Hrl as <-.
    pose proof (playlist_callback_hides _ _ _ _ _ _ _ Hslash Hex Hio His Hidx Hr) as Hr'.
    destruct Hshape as [->|(t & x & -> & Ht)].
    + by rewrite app_nil_r in Hocc.
    + apply occurs_separator in Hocc as [Hocc|(a & b & ->)]; [done| |by apply Hnot].
      apply Hrest. by exists (t :: a), b.
  - injection Hrl as <-. apply includes_not_occurs in Hl. done.
Qed.

Lemma rewrite_hides_matched_references_witness :
  includes (js "cdn.example")
    (js "#EXTM3U" ++ LF
     ++ js "https://proxy.example/file2/abc/NzIwcA/aW5kZXgubTN1OA.m3u8" ++ LF
     ++ js "https://proxy.example/file2/abc/dW5rbm93bg/aW5kZXgubTN1OA.m3u8 " ++ LF) = false.
Proof.
  apply (rewrite_hides_matched_references (js "https://proxy.example") (js "abc")
           (js "master.m3u8") (js "q")
           (js "#EXTM3U" ++ LF ++ js "https://cdn.example/v/720p/index.m3u8" ++ LF
            ++ js "https://cdn.example/v/index.m3u8 " ++ LF)).
  - discriminate.
  - by apply Forall_false_literal.
  - intros Hin. apply list_elem_of_In in Hin. vm_compute in Hin. intuition discriminate.
  - apply List.Exists_exists. exists (ch "."). split; [|reflexivity].
    vm_compute. tauto.
  - reflexivity.
  - reflexivity.
  - reflexivity.
  - by apply Forall_false_literal.
  - by apply Forall_false_literal.
  - apply Forall_lookup. intros i l Hi.
    destruct i as [|[|[|[|i]]]]; try discriminate Hi; apply (inj Some) in Hi; subst l.
    + reflexivity.
    + split; [reflexivity|]. by left.
    + split; [reflexivity|]. right. by exists 32, [].
    + reflexivity.
  - vm_compute. reflexivity.
Defined.
(** ** The codec, in full *)

(** Checking a property of the numbers below a bound by running it. *)
Definition below (n : nat) (P : N → bool) : bool :=
  forallb P (map N.of_nat (seq 0 n)).

Lemma below_spec (n : nat) (P : N → bool) (x : N) :
  below n P = true → x < N.of_nat n → P x = true.
Proof.
  unfold below. rewrite forallb_forall. intros H Hx. apply H.
  apply in_map_iff. exists (N.to_nat x). split; [apply N2Nat.id|].
  apply in_seq. lia.
Qed.

Lemma char_digit_digit_char (v : N) : v < 64 → Base64.char_digit (Base64.digit_char v) = Some v.
Proof.
  intros Hv.
  pose proof (below_spec 64
    (λ v, bool_decide (Base64.char_digit (Base64.digit_char v) = Some v)) v) as H.
  specialize (H ltac:(by vm_compute) ltac:(lia)). by apply bool_decide_eq_true in H.
Qed.

(** The sextets of a group, and the bytes they give back. *)
Lemma sextet_bounds (a b : N) :
  a ≤ 255 → b ≤ 255 →
  N.shiftr a 2 < 64
  ∧ N.lor (N.shiftl (N.land a 3) 4) (N.shiftr b 4) < 64
  ∧ N.lor (N.shiftl (N.land a 15) 2) (N.shiftr b 6) < 64
  ∧ N.land a 63 < 64
  ∧ N.shiftl (N.land a 3) 4 < 64
  ∧ N.shiftl (N.land a 15) 2 < 64.
Proof.
  intros Ha Hb.
  pose proof (below_spec 256 (λ a, below 256 (λ b,
    bool_decide (N.shiftr a 2 < 64
      ∧ N.lor (N.shiftl (N.land a 3) 4) (N.shiftr b 4) < 64
      ∧ N.lor (N.shiftl (N.land a 15) 2) (N.shiftr b 6) < 64
      ∧ N.land a 63 < 64
      ∧ N.shiftl (N.land a 3) 4 < 64
      ∧ N.shiftl (N.land a 15) 2 < 64))) a) as H.
  assert (a < N.of_nat 256) as Ha' by lia. assert (b < N.of_nat 256) as Hb' by lia.
  pose proof (below_spec 256 _ b (H ltac:(by vm_compute) Ha') Hb') as H'.
  by apply bool_decide_eq_true in H'.
Qed.

Lemma sextet_first_byte (a b : N) :
  a ≤ 255 → b ≤ 255 →
  N.lor (N.shiftl (N.shiftr a 2) 2)
    (N.shiftr (N.lor (N.shiftl (N.land a 3) 4) (N.shiftr b 4)) 4) = a
  ∧ N.lor (N.shiftl (N.shiftr a 2) 2) (N.shiftr (N.shiftl (N.land a 3) 4) 4) = a
  ∧ N.land (N.lor (N.shiftl (N.land a 3) 4) (N.shiftr b 4)) 15 = N.shiftr b 4
  ∧ N.shiftr (N.lor (N.shiftl (N.land a 15) 2) (N.shiftr b 6)) 2 = N.land a 15
  ∧ N.lor (N.shiftl (N.shiftr a 4) 4) (N.land a 15) = a
  ∧ N.lor (N.shiftl (N.land (N.lor (N.shiftl (N.land a 15) 2) (N.shiftr b 6)) 3) 6)
      (N.land b 63) = b.
Proof.
  intros Ha Hb.
  pose proof (below_spec 256 (λ a, below 256 (λ b,
    bool_decide (
      N.lor (N.shiftl (N.shiftr a 2) 2)
        (N.shiftr (N.lor (N.shiftl (N.land a 3) 4) (N.shiftr b 4)) 4) = a
      ∧ N.lor (N.shiftl (N.shiftr a 2) 2) (N.shiftr (N.shiftl (N.land a 3) 4) 4) = a
      ∧ N.land (N.lor (N.shiftl (N.land a 3) 4) (N.shiftr b 4)) 15 = N.shiftr b 4
      ∧ N.shiftr (N.lor (N.shiftl (N.land a 15) 2) (N.shiftr b 6)) 2 = N.land a 15
      ∧ N.lor (N.shiftl (N.shiftr a 4) 4) (N.land a 15) = a
      ∧ N.lor (N.shiftl (N.land (N.lor (N.shiftl (N.land a 15) 2) (N.shiftr b 6)) 3) 6)
          (N.land b 63) = b))) a) as H.
  assert (a < N.of_nat 256) as Ha' by lia. assert (b < N.of_nat 256) as Hb' by lia.
  pose proof (below_spec 256 _ b (H ltac:(by vm_compute) Ha') Hb') as H'.
  by apply bool_decide_eq_true in H'.
Qed.

(** The shape of [btoa]'s result, by the length of its argument modulo 3:
    the characters of some sextets, then no, two or one pad. *)
Lemma encode_bytes_shape (s : jsstring) :
  Forall (λ c, c ≤ 255) s →
  ∃ ds, Forall (λ v, v < 64) ds
    ∧ Base64.encode_bytes s
      = map Base64.digit_char ds
        ++ match (length s mod 3)%nat with
           | 0%nat => []
           | 1%nat => [Base64.pad; Base64.pad]
           | _ => [Base64.pad]
           end
    ∧ length ds = (match (length s mod 3)%nat with
                   | 0%nat => 0 | 1%nat => 2 | _ => 3 end + 4 * (length s / 3))%nat
    ∧ ((length s mod 3)%nat = 1%nat → Base64.decode_digits ds = s).
Proof.
  induction s as [|a|a b|a b c s IH] using list_ind3; intros Hs.
  - exists []. by repeat split.
  - apply List.Forall_cons_iff in Hs as [Ha _].
    destruct (sextet_bounds a a Ha Ha) as (H1 & _ & _ & _ & H5 & _).
    destruct (sextet_first_byte a a Ha Ha) as (_ & E2 & _).
    exists [N.shiftr a 2; N.shiftl (N.land a 3) 4].
    split; [by repeat constructor|]. split; [done|]. split; [done|].
    intros _. simpl. by rewrite E2.
  - apply List.Forall_cons_iff in Hs as [Ha [Hb _]%List.Forall_cons_iff].
    destruct (sextet_bounds a b Ha Hb) as (H1 & H2 & _).
    destruct (sextet_bounds b b Hb Hb) as (_ & _ & _ & _ & _ & H6).
    exists [N.shiftr a 2; N.lor (N.shiftl (N.land a 3) 4) (N.shiftr b 4);
            N.shiftl (N.land b 15) 2].
    split; [by repeat constructor|]. split; [done|]. split; [done|]. done.
  - apply List.Forall_cons_iff in Hs as [Ha [Hb [Hc Hs]%List.Forall_cons_iff]%List.Forall_cons_iff].
    destruct (IH Hs) as (ds & Hds & Henc & Hlen & Hdec).
    destruct (sextet_bounds a b Ha Hb) as (H1 & H2 & _).
    destruct (sextet_bounds b c Hb Hc) as (_ & _ & H3 & _).
    destruct (sextet_bounds c c Hc Hc) as (_ & _ & _ & H4 & _).
    destruct (sextet_first_byte a b Ha Hb) as (E1 & _ & E3 & _).
    destruct (sextet_first_byte b c Hb Hc) as (_ & _ & _ & E4 & E5 & E6).
    exists (N.shiftr a 2 :: N.lor (N.shiftl (N.land a 3) 4) (N.shiftr b 4)
            :: N.lor (N.shiftl (N.land b 15) 2) (N.shiftr c 6) :: N.land c 63 :: ds).
    assert (length (a :: b :: c :: s) mod 3 = length s mod 3
            ∧ length (a :: b :: c :: s) / 3 = Datatypes.S (length s / 3))%nat as [Hm Hq].
    { cbn [length]. split.
      - change (Datatypes.S (Datatypes.S (Datatypes.S (length s)))) with (3 + length s)%nat.
        rewrite <- (Nat.Div0.add_mod_idemp_l 3). done.
      - change (Datatypes.S (Datatypes.S (Datatypes.S (length s)))) with (1 * 3 + length s)%nat.
        rewrite Nat.div_add_l by done. done. }
    rewrite Hm, Hq. split; [by repeat constructor|]. split.
    { cbn [Base64.encode_bytes map app]. by rewrite Henc. }
    split; [cbn [length]; lia|].
    intros H1'. cbn [Base64.decode_digits]. rewrite E1, E3, E4, E5, E6. by rewrite Hdec.
Qed.

Lemma remove_equals_digits (ds : list N) (pads : jsstring) :
  Forall (λ c, c = Base64.pad) pads →
  remove_equals (map Base64.digit_char ds ++ pads) = map Base64.digit_char ds.
Proof.
  intros Hp. unfold remove_equals. rewrite List.filter_app.
  assert (List.filter (λ c, negb (c =? ch "=")) pads = []) as ->.
  { induction Hp as [|c pads -> _ IH]; [done|]. simpl. by rewrite IH. }
  rewrite app_nil_r. induction ds as [|v ds IH]; [done|]. simpl.
  destruct (in_alphabet_bounds _ (digit_char_in_alphabet v)) as [_ Hne].
  destruct (N.eqb_spec (Base64.digit_char v) (ch "=")) as [E|_]; [done|]. by rewrite IH.
Qed.

Lemma digit_chars_not_whitespace (ds : list N) (tail : jsstring) :
  List.filter (λ c, negb (Base64.is_ascii_whitespace c)) (map Base64.digit_char ds ++ tail)
  = map Base64.digit_char ds
    ++ List.filter (λ c, negb (Base64.is_ascii_whitespace c)) tail.
Proof.
  rewrite List.filter_app. f_equal. induction ds as [|v ds IH]; [done|]. simpl.
  destruct (in_alphabet_bounds _ (digit_char_in_alphabet v)) as [Hb _].
  assert (Base64.is_ascii_whitespace (Base64.digit_char v) = false) as ->.
  { unfold Base64.is_ascii_whitespace.
    repeat match goal with
           | |- context [N.eqb ?c ?k] => rewrite (proj2 (N.eqb_neq c k)) by lia
           end. done. }
  simpl. by rewrite IH.
Qed.

Lemma strip_padding_two (x : jsstring) : Base64.strip_padding (x ++ js "==") = x.
Proof.
  unfold Base64.strip_padding. rewrite rev_app_distr. simpl. apply rev_involutive.
Qed.

Lemma mapM_char_digit_digits (ds : list N) :
  Forall (λ v, v < 64) ds → mapM Base64.char_digit (map Base64.digit_char ds) = Some ds.
Proof.
  induction 1 as [|v ds Hv Hds IH]; [done|]. simpl.
  by rewrite (char_digit_digit_char _ Hv), IH.
Qed.

Lemma mapM_char_digit_pad (x tail : jsstring) :
  mapM Base64.char_digit (x ++ Base64.pad :: tail) = None.
Proof.
  induction x as [|c x IH]; simpl; [done|].
  destruct (Base64.char_digit c); [|done]. simpl. by rewrite IH.
Qed.

(** What [atob] makes of sextet characters followed by [==]. *)
Lemma atob_digits_padded (ds : list N) :
  Forall (λ v, v < 64) ds →
  Base64.atob (map Base64.digit_char ds ++ js "==")
  = if (length ds mod 4 =? 2)%nat then Some (Base64.decode_digits ds) else None.
Proof.
  intros Hds. unfold Base64.atob. rewrite digit_chars_not_whitespace.
  change (List.filter _ (js "==")) with (js "==").
  rewrite length_app, length_map. change (length (js "==")) with 2%nat.
  rewrite (Nat.Div0.add_mod (length ds) 2 4).
  pose proof (Nat.mod_upper_bound (length ds) 4 ltac:(done)) as Hr.
  destruct (length ds mod 4)%nat as [|[|[|[|r]]]] eqn:Er; try lia; cbn [Nat.eqb].
  - change ((0 + 2 mod 4) mod 4 =? 0)%nat with false. cbv iota.
    rewrite length_app, length_map. change (length (js "==")) with 2%nat.
    rewrite (Nat.Div0.add_mod (length ds) 2 4), Er.
    change ((0 + 2 mod 4) mod 4 =? 1)%nat with false. cbv iota.
    change (js "==") with (Base64.pad :: [Base64.pad]). by rewrite mapM_char_digit_pad.
  - change ((1 + 2 mod 4) mod 4 =? 0)%nat with false. cbv iota.
    rewrite length_app, length_map. change (length (js "==")) with 2%nat.
    rewrite (Nat.Div0.add_mod (length ds) 2 4), Er.
    change ((1 + 2 mod 4) mod 4 =? 1)%nat with false. cbv iota.
    change (js "==") with (Base64.pad :: [Base64.pad]). by rewrite mapM_char_digit_pad.
  - change ((2 + 2 mod 4) mod 4 =? 0)%nat with true. cbv iota.
    rewrite strip_padding_two, length_map, Er. cbn [Nat.eqb].
    by rewrite (mapM_char_digit_digits _ Hds).
  - change ((3 + 2 mod 4) mod 4 =? 0)%nat with false. cbv iota.
    rewrite length_app, length_map. change (length (js "==")) with 2%nat.
    by rewrite (Nat.Div0.add_mod (length ds) 2 4), Er.
Qed.

Lemma mod4_shift (r q : nat) : ((r + 4 * q) mod 4 = r mod 4)%nat.
Proof. rewrite (Nat.mul_comm 4 q). apply Nat.Div0.mod_add. Qed.

(** A token that [encode] wrote is decoded to the text it was written from
    when that text has one code unit more than a multiple of three, and is
    refused otherwise. *)
Lemma encoded_token_decodes (s t : jsstring) :
  Forall (λ c, c ≤ 255) s → encode s = Some t →
  decode t = if (length s mod 3 =? 1)%nat then Some s else None.
Proof.
  intros Hs Ht. destruct (encode_bytes_shape s Hs) as (ds & Hds & Henc & Hlen & Hdec).
  unfold encode, Base64.btoa in Ht.
  destruct (forallb (λ c, c <=? 255) s); [|done]. injection Ht as <-.
  rewrite Henc, remove_equals_digits.
  2:{ destruct (length s mod 3)%nat as [|[|?]]; by repeat constructor. }
  unfold decode. rewrite (atob_digits_padded _ Hds), Hlen.
  rewrite mod4_shift.
  pose proof (Nat.mod_upper_bound (length s) 3 ltac:(done)) as Hb.
  destruct (length s mod 3)%nat as [|[|[|?]]] eqn:Em; try lia; [done| |done].
  cbn [Nat.eqb Nat.modulo]. by rewrite Hdec.
Qed.

(** X7.  For a text of Latin-1 code units, which is what [btoa] accepts,
    encoding ([btoa] without its padding) and then decoding ([atob] of the
    token followed by [==]) gives the text back exactly when its length is one
    more than a multiple of three; for every other length the decoding
    raises. *)
Theorem codec_round_trip (s : jsstring) :
  Forall (λ c, c ≤ 255) s →
  encode s ≫= decode = if (length s mod 3 =? 1)%nat then Some s else None.
Proof.
  intros Hs. destruct (encode_latin1 s Hs) as [t Ht]. rewrite Ht.
  cbn [mbind option_bind]. by apply encoded_token_decodes.
Qed.

Lemma codec_round_trip_witness :
  encode (js "index.m3u8") ≫= decode = Some (js "index.m3u8")
  ∧ encode (js "seg001.ts") ≫= decode = None.
Proof.
  split.
  - apply (codec_round_trip (js "index.m3u8")). by apply latin1_literal.
  - apply (codec_round_trip (js "seg001.ts")). by apply latin1_literal.
Defined.

Lemma list_ind4 {A : Type} (P : list A → Prop) :
  P [] → (∀ a, P [a]) → (∀ a b, P [a; b]) → (∀ a b c, P [a; b; c]) →
  (∀ a b c d l, P l → P (a :: b :: c :: d :: l)) → ∀ l, P l.
Proof.
  intros H0 H1 H2 H3 H4.
  assert (∀ l, P l ∧ (∀ a, P (a :: l)) ∧ (∀ a b, P (a :: b :: l))
               ∧ (∀ a b c, P (a :: b :: c :: l))) as H.
  { induction l as [|x l (IH0 & IH1 & IH2 & IH3)]; [done|]. repeat split; [done|done|done|].
    intros a b c. by apply H4. }
  intros l. apply H.
Qed.

Lemma decode_digits_length (v : list N) :
  (length v mod 4 = 2 → length (Base64.decode_digits v) mod 3 = 1)%nat.
Proof.
  induction v as [|a|a b|a b c|a b c d v IH] using list_ind4; try done.
  cbn [length Base64.decode_digits].
  change (Datatypes.S (Datatypes.S (Datatypes.S (Datatypes.S (length v)))))
    with (4 + length v)%nat.
  change (Datatypes.S (Datatypes.S (Datatypes.S (length (Base64.decode_digits v)))))
    with (3 + length (Base64.decode_digits v))%nat.
  rewrite <- (Nat.Div0.add_mod_idemp_l 4), <- (Nat.Div0.add_mod_idemp_l 3). exact IH.
Qed.

(** What [atob] accepts once [==] has been appended: a token whose
    characters, white space apart, are sextet characters, two more than a
    multiple of four of them. *)
Lemma decode_Some (token s : jsstring) :
  decode token = Some s →
  let x := List.filter (λ c, negb (Base64.is_ascii_whitespace c)) token in
  (length x mod 4 = 2)%nat
  ∧ ∃ ds, mapM Base64.char_digit x = Some ds ∧ s = Base64.decode_digits ds.
Proof.
  unfold decode, Base64.atob. rewrite List.filter_app.
  change (List.filter _ (js "==")) with (js "==").
  set (x := List.filter _ token). rewrite length_app. change (length (js "==")) with 2%nat.
  rewrite (Nat.Div0.add_mod (length x) 2 4).
  pose proof (Nat.mod_upper_bound (length x) 4 ltac:(done)) as Hr.
  destruct (length x mod 4)%nat as [|[|[|[|r]]]] eqn:Er; try lia.
  - change ((0 + 2 mod 4) mod 4 =? 0)%nat with false. cbv iota.
    destruct (_ =? 1)%nat; [done|]. change (js "==") with (Base64.pad :: [Base64.pad]).
    by rewrite mapM_char_digit_pad.
  - change ((1 + 2 mod 4) mod 4 =? 0)%nat with false. cbv iota.
    destruct (_ =? 1)%nat; [done|]. change (js "==") with (Base64.pad :: [Base64.pad]).
    by rewrite mapM_char_digit_pad.
  - change ((2 + 2 mod 4) mod 4 =? 0)%nat with true. cbv iota.
    rewrite strip_padding_two, Er. cbn [Nat.eqb].
    destruct (mapM Base64.char_digit x) as [ds|]; [|done]. intros [= <-].
    split; [done|]. by exists ds.
  - change ((3 + 2 mod 4) mod 4 =? 0)%nat with false. cbv iota.
    rewrite length_app. change (length (js "==")) with 2%nat.
    by rewrite (Nat.Div0.add_mod (length x) 2 4), Er.
Qed.

(** Whatever [decode] returns has one code unit more than a multiple of
    three. *)
Lemma decode_length (token s : jsstring) :
  decode token = Some s → (length s mod 3 = 1)%nat.
Proof.
  intros H. destruct (decode_Some _ _ H) as (Hx & ds & Hds & ->).
  apply decode_digits_length. apply mapM_Some in Hds.
  by rewrite <- (Forall2_length Hds).
Qed.

Lemma decode_not_master (token s : jsstring) :
  decode token = Some s → str_eqb s (js "master.m3u8") = false.
Proof.
  intros H. apply decode_length in H. apply str_eqb_neq. intros E.
  rewrite E in H. vm_compute in H. discriminate.
Qed.

(** X8.  Whatever the proxy handler decodes from a path token ([atob] of
    the token followed by [==]) has a length one more than a multiple of
    three: every other token raises.  So a decoded filename is never
    [master.m3u8], whose length is 11. *)
Theorem decoded_length (token s : jsstring) :
  decode token = Some s → (length s mod 3 = 1)%nat ∧ s ≠ js "master.m3u8".
Proof.
  intros H. pose proof (decode_length _ _ H) as Hlen.
  split; [done|]. intros E. rewrite E in Hlen. vm_compute in Hlen. discriminate.
Qed.

Lemma decoded_length_witness :
  (length (js "720p") mod 3 = 1)%nat.
Proof.
  apply (decoded_length (js "NzIwcA") (js "720p")). reflexivity.
Defined.

(** ** CORS headers *)

Definition has_cors (r : response) : Prop :=
  ∀ kv, kv ∈ corsHeaders → kv ∈ headers r.

Lemma headers_set_in (k v : jsstring) (hs : list (jsstring * jsstring)) :
  (k, v) ∈ headers_set k v hs.
Proof.
  induction hs as [|[k' v'] hs IH]; simpl; [by left|].
  destruct (str_eqb k' k) eqn:E; [|by right].
  apply str_eqb_eq in E. subst. by left.
Qed.

Lemma headers_set_other (k v k' v' : jsstring) (hs : list (jsstring * jsstring)) :
  k ≠ k' → (k, v) ∈ hs → (k, v) ∈ headers_set k' v' hs.
Proof.
  intros Hne. induction hs as [|[k0 v0] hs IH]; simpl; [by rewrite elem_of_nil|].
  intros [E|Hin]%elem_of_cons.
  - injection E as <- <-. apply str_eqb_neq in Hne. rewrite Hne. by left.
  - destruct (str_eqb k0 k'); right; [done|by apply IH].
Qed.

(** A header the worker has set under a name that is not a CORS header
    name is still there after [addCorsHeaders]. *)
Lemma addCorsHeaders_keeps (r : response) (k v : jsstring) :
  k ∉ corsHeaders.*1 → (k, v) ∈ headers r → (k, v) ∈ headers (addCorsHeaders r).
Proof.
  intros Hk Hin. unfold addCorsHeaders. cbn [headers].
  revert Hk. generalize corsHeaders. intros cors. revert Hin. generalize (headers r).
  induction cors as [|[k' v'] cors IH]; intros hs Hin Hk; simpl; [done|].
  apply not_elem_of_cons in Hk as [Hne Hk]. apply IH; [|done].
  by apply headers_set_other.
Qed.

Lemma addCorsHeaders_has_cors (r : response) : has_cors (addCorsHeaders r).
Proof.
  intros kv Hkv. unfold addCorsHeaders. cbn [headers].
  assert (∀ (cors : list (jsstring * jsstring)) hs,
            NoDup cors.*1 → kv ∈ cors →
            kv ∈ fold_left (λ hs kv, headers_set kv.1 kv.2 hs) cors hs) as H.
  { induction cors as [|[k v] cors IH]; intros hs Hnd Hin; [by apply elem_of_nil in Hin|].
    apply list.NoDup_cons in Hnd as [Hk Hnd]. apply elem_of_cons in Hin as [->|Hin]; simpl.
    - clear IH. pose proof (headers_set_in k v hs) as H0. revert H0.
      generalize (headers_set k v hs). clear hs.
      induction cors as [|[k' v'] cors IH]; intros hs H0; simpl; [done|].
      simpl in Hk. apply not_elem_of_cons in Hk as [Hne Hk]. apply list.NoDup_cons in Hnd as [_ Hnd].
      apply IH; [done|done|]. by apply headers_set_other.
    - by apply IH. }
  apply H; [|done]. vm_compute. repeat constructor; rewrite ?elem_of_cons, elem_of_nil;
    intuition discriminate.
Qed.

Lemma json_response_has_cors (code : N) (fields : list (jsstring * field)) :
  has_cors (json_response code fields).
Proof. apply addCorsHeaders_has_cors. Qed.

Lemma text_response_has_cors (code : N) (text : jsstring) :
  has_cors (text_response code text).
Proof. apply addCorsHeaders_has_cors. Qed.

Lemma proxyVideoSegment_has_cors (e : env) (url : json) (filename : jsstring) :
  has_cors (proxyVideoSegment e url filename).1.
Proof.
  unfold proxyVideoSegment, segment_error.
  destruct (baseUrl url); [apply json_response_has_cors|].
  destruct (upstream e _) as [err|r]; [apply json_response_has_cors|].
  destruct (ok r); [apply addCorsHeaders_has_cors|apply json_response_has_cors].
Qed.

Lemma proxyM3U8Playlist_has_cors (e : env) (url : json)
    (filename quality sessionPath origin : jsstring) :
  has_cors (proxyM3U8Playlist e url filename quality sessionPath origin).1.
Proof.
  unfold proxyM3U8Playlist, playlist_error.
  destruct (targetUrl _ _ _); [apply json_response_has_cors|].
  destruct (upstream e _) as [err|r]; [apply json_response_has_cors|].
  destruct (ok r); [|apply json_response_has_cors].
  destruct (rewritePlaylist _ _ _ _ _);
    [apply addCorsHeaders_has_cors|apply json_response_has_cors].
Qed.

(** X9.  Every response of the worker, whatever the request and the store,
    carries each of the five CORS headers with the worker's value for it. *)
Theorem every_response_has_cors (e : env) (sessions : store) (req : request)
    (name value : jsstring) :
  (name, value) ∈ corsHeaders → (name, value) ∈ headers (out_response (fetch e sessions req)).
Proof.
  revert name value.
  assert (has_cors (out_response (fetch e sessions req))) as H; [|by intros n v; apply H].
  unfold fetch.
  destruct (str_eqb (method req) (js "OPTIONS")); [apply addCorsHeaders_has_cors|].
  destruct (startsWith (js "/store-session") (url_pathname req)).
  { unfold handleStoreSession, invalid_json_response, json_response, text_response.
    repeat case_match; apply addCorsHeaders_has_cors. }
  destruct (startsWith (js "/file2/") (url_pathname req)).
  { unfold handleDatacrateProxy, decode_error_response, session_not_found_response.
    destruct (_ <? 5)%nat; [apply text_response_has_cors|].
    destruct (decode _); [|apply json_response_has_cors].
    destruct (decode _); [|apply json_response_has_cors].
    destruct (getSession _ _ _) as [[[data|] sessions'] reads]; [|apply json_response_has_cors].
    destruct (is_segment _).
    - pose proof (proxyVideoSegment_has_cors e (originalUrl data) l0) as H.
      by destruct (proxyVideoSegment _ _ _).
    - pose proof (proxyM3U8Playlist_has_cors e (originalUrl data) l0 l
                    (nth 2 (split (ch "/") (url_pathname req)) []) (url_origin req)) as H.
      by destruct (proxyM3U8Playlist _ _ _ _ _ _). }
  destruct (startsWith (js "/stream/") (url_pathname req)).
  { unfold handleLegacyProxy, legacy_gone_response. simpl.
    destruct (_ <? 5)%nat; [apply text_response_has_cors|apply json_response_has_cors]. }
  destruct (str_eqb (url_pathname req) (js "/health")); [apply json_response_has_cors|].
  apply addCorsHeaders_has_cors.
Qed.

Lemma every_response_has_cors_witness :
  (js "Access-Control-Allow-Origin", js "*")
  ∈ headers (out_response
      (fetch sample_env ∅
         (Request (js "GET") (js "https://proxy.example") (js "/nowhere") None))).
Proof. apply every_response_has_cors. unfold corsHeaders. apply list_elem_of_here. Defined.

(** ** What a proxy request does *)

Lemma proxyVideoSegment_effects (e : env) (url : json) (filename : jsstring) :
  (proxyVideoSegment e url filename).2 = []
  ∨ ∃ target, (proxyVideoSegment e url filename).2 = [Fetch target].
Proof.
  unfold proxyVideoSegment. destruct (baseUrl url); [by left|right].
  eexists. destruct (upstream e _) as [err|r]; [done|]. by destruct (ok r).
Qed.

Lemma proxyM3U8Playlist_effects (e : env) (url : json)
    (filename quality sessionPath origin : jsstring) :
  (proxyM3U8Playlist e url filename quality sessionPath origin).2 = []
  ∨ ∃ target, (proxyM3U8Playlist e url filename quality sessionPath origin).2 = [Fetch target].
Proof.
  unfold proxyM3U8Playlist. destruct (targetUrl _ _ _) as [err|target]; [by left|right].
  exists target. destruct (upstream e _) as [err|r]; [done|].
  destruct (ok r); [|done]. by destruct (rewritePlaylist _ _ _ _ _).
Qed.

Lemma getSession_cases (sessions : store) (t : Z) (k : jsstring) :
  (∃ s, sessions !! k = Some s ∧ getSession sessions t k = (Some s, sessions, [StoreGet k]))
  ∨ getSession sessions t k = (None, sessions, [StoreGet k])
  ∨ getSession sessions t k = (None, delete k sessions, [StoreGet k; StoreDelete k]).
Proof.
  unfold getSession. destruct (sessions !! k) as [s|]; [|by right; left].
  destruct (negb _ && _); [by right; right|left]. by exists s.
Qed.

(** X10.  What one request does to the store and to the upstream, [k]
    being the third part of its path.  Either nothing.  Or, for a request
    under [/store-session] with a parsed body, one write, of the session
    whose id, origin URL and metadata are the [sessionId], [originalUrl] and
    [metadata] properties of that body.  Or, for a request under [/file2/],
    one read of the session [k], followed by nothing (the store unchanged);
    or by the deletion of [k], which was stored and has expired; or by
    exactly one upstream fetch, when [k] is stored and both tokens decode:
    of [{base}/{filename}] for a segment name, [base] being what [baseUrl]
    gives for the session's origin URL, and otherwise of what [targetUrl]
    gives for that origin URL, the decoded filename and the decoded
    quality. *)
Theorem request_effects (e : env) (sessions : store) (req : request) :
  let o := fetch e sessions req in
  let pathParts := split (ch "/") (url_pathname req) in
  let k := nth 2 pathParts [] in
  (out_effects o = [] ∧ out_store o = sessions)
  ∨ (∃ v sid url,
       startsWith (js "/store-session") (url_pathname req) = true
       ∧ payload req = Some v
       ∧ get_property v (js "sessionId") = Some sid
       ∧ get_property v (js "originalUrl") = Some url
       ∧ out_effects o = [StoreSet sid]
       ∧ out_store o
         = storeSession sessions (now e) sid url (get_property v (js "metadata")))
  ∨ (startsWith (js "/file2/") (url_pathname req) = true
     ∧ out_effects o = [StoreGet k] ∧ out_store o = sessions)
  ∨ (∃ s,
       startsWith (js "/file2/") (url_pathname req) = true
       ∧ sessions !! k = Some s ∧ (expiresAt s < now e)%Z
       ∧ out_effects o = [StoreGet k; StoreDelete k]
       ∧ out_store o = delete k sessions)
  ∨ (∃ s quality filename target,
       startsWith (js "/file2/") (url_pathname req) = true
       ∧ sessions !! k = Some s
       ∧ decode (nth 3 pathParts []) = Some quality
       ∧ decode (remove_first (js ".m3u8") (nth 4 pathParts [])) = Some filename
       ∧ (if is_segment filename then
            ∃ base, baseUrl (originalUrl s) = inr base
                    ∧ target = JStr (base ++ js "/" ++ filename)
          else targetUrl (originalUrl s) filename quality = inr target)
       ∧ out_effects o = [StoreGet k; Fetch target]
       ∧ out_store o = sessions).
Proof.
  intros o pathParts k. subst o. unfold fetch.
  destruct (str_eqb (method req) (js "OPTIONS")); [by left|].
  destruct (startsWith (js "/store-session") (url_pathname req)) eqn:Hstore.
  { unfold handleStoreSession.
    destruct (negb _); [by left|]. destruct (payload req) as [v|]; [|by left].
    destruct v; try (by left);
      (destruct (negb _ || negb _); [by left|]);
      try (destruct (get_property _ (js "sessionId")) as [sid|] eqn:Hsid; [|by left]);
      try (destruct (get_property _ (js "originalUrl")) as [url|] eqn:Hurl; [|by left]);
      try (by left); right; left; eexists _, sid, url; by rewrite ?Hsid, ?Hurl. }
  destruct (startsWith (js "/file2/") (url_pathname req)) eqn:Hfile2.
  { unfold handleDatacrateProxy. fold pathParts. fold k.
    destruct (_ <? 5)%nat; [by left|].
    destruct (decode (nth 3 pathParts [])) as [quality|] eqn:Hq; [|by left].
    destruct (decode (remove_first _ _)) as [filename|] eqn:Hf; [|by left].
    unfold getSession. destruct (sessions !! k) as [s|] eqn:Hs; [|by right; right; left].
    destruct (negb (expiresAt s =? 0)%Z && (expiresAt s <? now e)%Z) eqn:Hexp.
    { right; right; right; left. exists s.
      apply andb_true_iff in Hexp as [_ Hlt%Z.ltb_lt]. done. }
    destruct (is_segment filename) eqn:Hseg.
    - unfold proxyVideoSegment.
      destruct (baseUrl (originalUrl s)) as [err|base] eqn:Hbase; [by right; right; left|].
      right; right; right; right.
      exists s, quality, filename, (JStr (base ++ js "/" ++ filename)).
      rewrite Hseg. repeat split; try done; [by exists base| |].
      + destruct (upstream e _) as [err|r]; [done|]. by destruct (ok r).
      + destruct (upstream e _) as [err|r]; [done|]. by destruct (ok r).
    - unfold proxyM3U8Playlist.
      destruct (targetUrl (originalUrl s) filename quality) as [err|target] eqn:Htarget;
        [by right; right; left|].
      right; right; right; right. exists s, quality, filename, target.
      rewrite Hseg. repeat split; try done.
      + destruct (upstream e _) as [err|r]; [done|]. destruct (ok r); [|done].
        by destruct (rewritePlaylist _ _ _ _ _).
      + destruct (upstream e _) as [err|r]; [done|]. destruct (ok r); [|done].
        by destruct (rewritePlaylist _ _ _ _ _). }
  destruct (startsWith (js "/stream/") (url_pathname req)); [by left|].
  destruct (str_eqb (url_pathname req) (js "/health")); by left.
Qed.

(** X11.  A playlist that a proxy request answers with (status 200 and a
    text body) is always the result of the media rewriting, with the [.ts]
    pattern: since no token decodes to [master.m3u8], the master rewriting of
    lines 183-193 is never reached through the request handler. *)
Theorem proxied_playlist_is_media (e : env) (sessions : store)
    (origin pathname out : jsstring) :
  let o := handleDatacrateProxy e sessions origin pathname in
  status (out_response o) = 200 →
  resp_body (out_response o) = BodyText out →
  ∃ quality body,
    replace_references (js ".ts")
      (media_callback origin (nth 2 (split (ch "/") pathname) []) quality) None body
    = Some out.
Proof.
  intros o. subst o. unfold handleDatacrateProxy.
  destruct (_ <? 5)%nat; [done|].
  destruct (decode _) as [quality|]; [|done].
  destruct (decode _) as [filename|] eqn:Hf; [|done].
  apply decode_not_master in Hf.
  destruct (getSession _ _ _) as [[[data|] sessions'] reads]; [|done].
  destruct (is_segment filename).
  - unfold proxyVideoSegment. destruct (baseUrl _); [done|].
    destruct (upstream e _) as [err|r]; [done|]. by destruct (ok r).
  - unfold proxyM3U8Playlist. destruct (targetUrl _ _ _); [done|].
    destruct (upstream e _) as [err|r]; [done|]. destruct (ok r); [|done].
    destruct (rewritePlaylist _ _ _ _ _) as [rewritten|] eqn:Hr; [|done].
    cbn [out_response resp_body addCorsHeaders]. intros _ [= <-].
    unfold rewritePlaylist in Hr. rewrite Hf in Hr. by exists quality, (up_text r).
Qed.

Lemma proxied_playlist_is_media_witness :
  ∃ quality body,
    replace_references (js ".ts")
      (media_callback (js "https://proxy.example")
         (nth 2 (split (ch "/") (js "/file2/abc/NzIwcA/aW5kZXgubTN1OA.m3u8")) []) quality)
      None body
    = Some (js "#EXTM3U").
Proof.
  apply (proxied_playlist_is_media (Env 1700000000001 (sample_upstream (js "#EXTM3U")))
           leaking_store (js "https://proxy.example")
           (js "/file2/abc/NzIwcA/aW5kZXgubTN1OA.m3u8") (js "#EXTM3U")).
  - reflexivity.
  - reflexivity.
Defined.

(** ** Segments *)

Lemma not_cors_name (k : jsstring) :
  forallb (λ kv, negb (str_eqb k kv.1)) corsHeaders = true → k ∉ corsHeaders.*1.
Proof.
  intros H Hin. apply list_elem_of_fmap in Hin as ([k' v] & -> & Hin).
  rewrite forallb_forall in H. apply list_elem_of_In in Hin. specialize (H _ Hin).
  simpl in H. apply negb_true_iff, str_eqb_neq in H. done.
Qed.

(** X12.  A segment is fetched from the directory of the session's origin
    URL (the text before its last slash) followed by a slash and the decoded
    filename, by one upstream fetch.  A successful upstream answer is passed
    on with its status and body as [video/mp2t], cacheable for an hour; a
    failed fetch and an upstream status outside 200-299 are both answered 404
    with the filename and the cause. *)
Theorem segment_proxying (e : env) (dir name filename : jsstring) :
  ch "/" ∉ name →
  let segmentUrl := JStr (dir ++ js "/" ++ filename) in
  let '(r, effects) := proxyVideoSegment e (JStr (dir ++ js "/" ++ name)) filename in
  effects = [Fetch segmentUrl]
  ∧ match upstream e segmentUrl with
    | inr up =>
        if ok up then
          status r = up_status up ∧ resp_body r = BodyStream (up_bytes up)
          ∧ (js "Content-Type", js "video/mp2t") ∈ headers r
          ∧ (js "Cache-Control", js "public, max-age=3600") ∈ headers r
        else
          status r = 404
          ∧ resp_body r
            = BodyJson
                [(js "error", FString (js "Segment not available"));
                 (js "filename", FString filename);
                 (js "originalError",
                  FMessage (Error (js "Failed to fetch segment: " ++ decimal (up_status up))))]
    | inl err =>
        status r = 404
        ∧ resp_body r
          = BodyJson
              [(js "error", FString (js "Segment not available"));
               (js "filename", FString filename);
               (js "originalError", FMessage err)]
    end.
Proof.
  intros Hname segmentUrl. unfold proxyVideoSegment.
  rewrite (baseUrl_dirname _ _ Hname). fold segmentUrl.
  destruct (upstream e segmentUrl) as [err|up]; [done|].
  destruct (ok up); [|done]. split; [done|]. split; [done|]. split; [done|].
  split; apply addCorsHeaders_keeps.
  - apply not_cors_name. reflexivity.
  - apply list_elem_of_In. simpl. tauto.
  - apply not_cors_name. reflexivity.
  - apply list_elem_of_In. simpl. tauto.
Qed.

Lemma segment_proxying_witness :
  (proxyVideoSegment sample_env
     (JStr (js "https://cdn.example/v" ++ js "/" ++ js "master.m3u8")) (js "seg1.ts")).2
  = [Fetch (JStr (js "https://cdn.example/v" ++ js "/" ++ js "seg1.ts"))].
Proof.
  pose proof (segment_proxying sample_env (js "https://cdn.example/v") (js "master.m3u8")
                (js "seg1.ts")) as H.
  cbv zeta in H.
  destruct (proxyVideoSegment sample_env
              (JStr (js "https://cdn.example/v" ++ js "/" ++ js "master.m3u8"))
              (js "seg1.ts")) as [r effects].
  apply H. intros Hin. apply list_elem_of_In in Hin. vm_compute in Hin.
  intuition discriminate.
Defined.

(** ** The quality of a master reference *)

(** The shapes [\d+p?|low|med|high]. *)
Definition quality_shape (q : jsstring) : Prop :=
  (q ≠ [] ∧ Forall (λ c, is_digit c = true) q)
  ∨ (∃ d, d ≠ [] ∧ Forall (λ c, is_digit c = true) d ∧ q = d ++ js "p")
  ∨ q = js "low" ∨ q = js "med" ∨ q = js "high".

Lemma quality_group_sound (s q : jsstring) :
  quality_group s = Some q → quality_shape q ∧ ∃ b, s = q ++ js "/" ++ b.
Proof.
  unfold quality_group. pose proof (span_app is_digit s) as Hs.
  pose proof (span_forall is_digit s) as Hd.
  destruct (span is_digit s) as [digits t]. cbn [fst snd] in *.
  destruct digits as [|d digits].
  - destruct (startsWith (js "low/") s) eqn:E1.
    { apply startsWith_true in E1 as [b ->]. intros [= <-].
      split; [by right; right; left|by exists b]. }
    destruct (startsWith (js "med/") s) eqn:E2.
    { apply startsWith_true in E2 as [b ->]. intros [= <-].
      split; [by right; right; right; left|by exists b]. }
    destruct (startsWith (js "high/") s) eqn:E3; [|done].
    apply startsWith_true in E3 as [b ->]. intros [= <-].
    split; [by right; right; right; right|by exists b].
  - destruct t as [|c t]; [done|]. destruct (N.eqb_spec c (ch "p")) as [->|_].
    + destruct (startsWith (js "/") t) eqn:E; [|done].
      apply startsWith_true in E as [b ->]. intros [= <-]. split.
      * right; left. by exists (d :: digits).
      * exists b. rewrite <- Hs.
        change (d :: digits ++ js "p") with ((d :: digits) ++ js "p").
        by rewrite <- app_assoc.
    + destruct (N.eqb_spec c (ch "/")) as [->|_]; [|done]. intros [= <-]. split.
      * by left.
      * exists t. by rewrite <- Hs.
Qed.

Lemma quality_match_sound (m q : jsstring) :
  quality_match m = Some q → quality_shape q ∧ occurs (js "/" ++ q ++ js "/") m.
Proof.
  induction m as [|c m IH]; [done|]. simpl.
  destruct (N.eqb_spec c (ch "/")) as [->|_].
  - destruct (quality_group m) as [q'|] eqn:Eg.
    + intros [= <-]. apply quality_group_sound in Eg as [Hshape [b ->]].
      split; [done|]. exists [], b. simpl. rewrite <- app_assoc. reflexivity.
    + intros [Hshape (a & b & ->)]%IH. split; [done|]. by exists (ch "/" :: a), b.
  - intros [Hshape (a & b & ->)]%IH. split; [done|]. by exists (c :: a), b.
Qed.

(** X13.  The quality that the master callback detects in a reference is
    either [unknown] or a text of the shape [\d+p?|low|med|high] that stands
    between two slashes in the reference. *)
Theorem detected_quality_sound (m : jsstring) :
  detectedQuality m = js "unknown"
  ∨ (quality_shape (detectedQuality m)
     ∧ occurs (js "/" ++ detectedQuality m ++ js "/") m).
Proof.
  unfold detectedQuality. destruct (quality_match m) as [q|] eqn:E; [right|by left].
  by apply quality_match_sound.
Qed.

Lemma span_run (p : N → bool) (q b : jsstring) (c : N) :
  Forall (λ x, p x = true) q → p c = false → span p (q ++ c :: b) = (q, c :: b).
Proof.
  intros Hq Hc. induction Hq as [|x q Hx Hq IH]; simpl; [by rewrite Hc|].
  by rewrite Hx, IH.
Qed.

Lemma quality_group_complete (q b : jsstring) :
  quality_shape q → quality_group (q ++ js "/" ++ b) = Some q.
Proof.
  unfold quality_group.
  intros [[Hne Hd]|[(d & Hne & Hd & ->)|Hword]].
  - change (js "/" ++ b) with (ch "/" :: b).
    rewrite (span_run is_digit q b (ch "/") Hd eq_refl). by destruct q.
  - rewrite <- app_assoc. change (js "p" ++ js "/" ++ b) with (ch "p" :: js "/" ++ b).
    rewrite (span_run is_digit d (js "/" ++ b) (ch "p") Hd eq_refl). destruct d; [done|].
    rewrite N.eqb_refl. reflexivity.
  - by destruct Hword as [->|[->| ->]].
Qed.

Lemma quality_match_complete (m q : jsstring) :
  quality_shape q → occurs (js "/" ++ q ++ js "/") m → is_Some (quality_match m).
Proof.
  intros Hq (a & b & ->). induction a as [|c a IH]; simpl.
  - rewrite <- !app_assoc. rewrite (quality_group_complete q b Hq). by eexists.
  - destruct (if c =? ch "/" then quality_group _ else None); [by eexists|exact IH].
Qed.

(** X14.  A reference that holds a text of the shape
    [\d+p?|low|med|high] between two slashes is never given the quality
    [unknown]: the detected quality is such a text of the reference (the
    leftmost one). *)
Theorem quality_detected_when_present (m q : jsstring) :
  quality_shape q → occurs (js "/" ++ q ++ js "/") m →
  quality_shape (detectedQuality m)
  ∧ occurs (js "/" ++ detectedQuality m ++ js "/") m.
Proof.
  intros Hq Hocc. destruct (quality_match_complete m q Hq Hocc) as [q' Hq'].
  unfold detectedQuality. rewrite Hq'. by apply quality_match_sound.
Qed.

Lemma quality_detected_when_present_witness :
  quality_shape (detectedQuality (js "https://cdn.example/v/720p/video.m3u8"))
  ∧ occurs (js "/" ++ detectedQuality (js "https://cdn.example/v/720p/video.m3u8") ++ js "/")
      (js "https://cdn.example/v/720p/video.m3u8").
Proof.
  apply (quality_detected_when_present (js "https://cdn.example/v/720p/video.m3u8")
           (js "720p")).
  - right; left. exists (js "720"). split; [discriminate|]. split; [|reflexivity].
    by repeat constructor.
  - by exists (js "https://cdn.example/v"), (js "video.m3u8").
Defined.

Definition count_slashes (m : jsstring) : nat :=
  length (List.filter (λ c, c =? ch "/") m).

Lemma count_slashes_app (a b : jsstring) :
  count_slashes (a ++ b) = (count_slashes a + count_slashes b)%nat.
Proof. unfold count_slashes. by rewrite List.filter_app, length_app. Qed.

(** X15.  A reference with fewer than two slashes, such as the relative
    [720p/index.m3u8], has the quality [unknown]. *)
Theorem quality_needs_two_slashes (m : jsstring) :
  (count_slashes m < 2)%nat → detectedQuality m = js "unknown".
Proof.
  intros Hlt. unfold detectedQuality. destruct (quality_match m) as [q|] eqn:E; [|done].
  apply quality_match_sound in E as [_ (a & b & ->)].
  rewrite !count_slashes_app in Hlt.
  change (count_slashes (js "/")) with 1%nat in Hlt. lia.
Qed.

Lemma quality_needs_two_slashes_witness :
  detectedQuality (js "1080p/index.m3u8") = js "unknown".
Proof. apply quality_needs_two_slashes. vm_compute. lia. Defined.

(** ** What the reference pattern matches *)

Lemma lastIndexOf_occurs (p s : jsstring) (j : nat) :
  lastIndexOf p s = Some j → ∃ b, s = take j s ++ p ++ b.
Proof.
  revert j. induction s as [|c s IH]; intros j; simpl.
  - destruct (startsWith p []) eqn:E; [|done]. intros [= <-].
    apply startsWith_true in E as [b E]. by exists b.
  - destruct (lastIndexOf p s) as [k|].
    + intros [= <-]. destruct (IH k eq_refl) as [b Hb]. exists b. simpl. by rewrite <- Hb.
    + destruct (startsWith p (c :: s)) eqn:E; [|done]. intros [= <-].
      apply startsWith_true in E as [b E]. by exists b.
Qed.

Lemma startsWith_char (a c : N) (s : jsstring) : startsWith [a] (c :: s) = (a =? c).
Proof. unfold startsWith. simpl. by destruct (a =? c). Qed.

Lemma match_absolute_sound (s : jsstring) (n : nat) :
  match_absolute s = Some n →
  (startsWith (js "http://") (take n s) = true ∨ startsWith (js "https://") (take n s) = true)
  ∧ (drop n s = [] ∨ ∃ t x, drop n s = t :: x ∧ is_space t = true).
Proof.
  unfold match_absolute.
  destruct (strip_prefix (js "http") s) as [s1|] eqn:E1; [|done]. cbn [mbind option_bind].
  apply strip_prefix_app in E1.
  set (s2 := match s1 with [] => s1 | d :: t => if d =? ch "s" then t else s1 end).
  destruct (strip_prefix (js "://") s2) as [s3|] eqn:E3; [|done]. cbn [mbind option_bind].
  apply strip_prefix_app in E3.
  pose proof (span_app not_space s3) as Hs. pose proof (span_rest not_space s3) as Hrest.
  destruct (span not_space s3) as [run rest]. cbn [fst snd] in *.
  destruct run as [|r0 run]; [done|]. intros [= <-].
  assert (∃ pre, (pre = js "http://" ∨ pre = js "https://") ∧ s = pre ++ (r0 :: run) ++ rest)
    as (pre & Hpre & ->).
  { subst s2. destruct s1 as [|d t].
    - by destruct s3.
    - destruct (N.eqb_spec d (ch "s")) as [->|_].
      + exists (js "https://"). split; [by right|]. by rewrite E1, E3, <- Hs.
      + exists (js "http://"). split; [by left|]. by rewrite E1, E3, <- Hs. }
  assert (length (pre ++ (r0 :: run) ++ rest) - length rest
          = length (pre ++ r0 :: run))%nat as ->.
  { rewrite !length_app. lia. }
  rewrite app_assoc, take_app_length, drop_app_length. split.
  - destruct Hpre as [-> | ->]; [left|right]; apply startsWith_true; by eexists.
  - destruct Hrest as [->|(t & x & -> & Ht)]; [by left|right].
    exists t, x. split; [done|]. unfold not_space in Ht. by destruct (is_space t).
Qed.

Lemma match_relative_sound (ext s : jsstring) (n : nat) :
  match_relative ext s = Some n →
  startsWith (js "/") (take n s) = false ∧ ∃ x, x ≠ [] ∧ take n s = x ++ ext.
Proof.
  unfold match_relative. destruct s as [|c s']; [done|].
  destruct (N.eqb_spec c (ch "/")) as [->|Hc]; [done|]. cbn [orb].
  destruct (is_space c); [done|].
  destruct (lastIndexOf ext (span not_space s').1) as [j|] eqn:Ej; [|done].
  cbn [mbind option_bind]. intros [= <-].
  pose proof (lastIndexOf_bound _ _ _ Ej) as Hbound.
  apply lastIndexOf_occurs in Ej as [b Hb].
  pose proof (span_app not_space s') as Hs. rewrite Hb in Hs.
  set (a := take j (span not_space s').1) in *.
  assert (length a = j) as Hj.
  { subst a. apply length_take_le. lia. }
  split.
  - cbn [take]. change (js "/") with [ch "/"]. rewrite startsWith_char.
    apply N.eqb_neq. congruence.
  - exists (c :: a). split; [done|]. cbn [take].
    change ((c :: a) ++ ext) with (c :: (a ++ ext)). f_equal.
    rewrite <- Hs, <- Hj, <- length_app.
    replace ((a ++ ext ++ b) ++ (span not_space s').2)
      with ((a ++ ext) ++ b ++ (span not_space s').2) by (by rewrite <- !app_assoc).
    apply take_app_length.
Qed.

(** X16.  What the reference pattern matches at the head of a line: a
    non-empty prefix of the line without white space that does not start with
    [#], and that is either an absolute [http://] or [https://] URL running
    up to the next white space or the end of the line, or a text that does
    not start with a slash and ends with the extension. *)
Theorem reference_match_sound (ext l m rest : jsstring) :
  match_reference ext l = Some (m, rest) →
  l = m ++ rest
  ∧ Forall (λ c, is_space c = false) m
  ∧ startsWith (js "#") m = false
  ∧ (((startsWith (js "http://") m = true ∨ startsWith (js "https://") m = true)
      ∧ (rest = [] ∨ ∃ t x, rest = t :: x ∧ is_space t = true))
     ∨ (startsWith (js "/") m = false ∧ ∃ x, x ≠ [] ∧ m = x ++ ext)).
Proof.
  intros H. split; [by apply match_reference_split in H as [? _]|].
  split; [by apply match_reference_no_space in H|].
  unfold match_reference in H. destruct l as [|c l']; [done|].
  destruct (N.eqb_spec c (ch "#")) as [->|Hc]; [done|].
  destruct (match_absolute (c :: l')) as [n|] eqn:Ha.
  - cbn [mbind option_bind] in H. injection H as <- <-.
    pose proof (match_absolute_bound _ _ Ha) as [Hn _].
    split.
    + destruct n; [lia|]. cbn [take]. change (js "#") with [ch "#"].
      rewrite startsWith_char. apply N.eqb_neq. congruence.
    + left. by apply match_absolute_sound.
  - destruct (match_relative ext (c :: l')) as [n|] eqn:Hr; [|done].
    cbn [mbind option_bind] in H. injection H as <- <-.
    pose proof (match_relative_bound _ _ _ Hr) as [Hn _].
    split.
    + destruct n; [lia|]. cbn [take]. change (js "#") with [ch "#"].
      rewrite startsWith_char. apply N.eqb_neq. congruence.
    + right. by apply match_relative_sound.
Qed.

Lemma reference_match_sound_witness :
  js "a/b/seg.ts.ts?x" = js "a/b/seg.ts.ts" ++ js "?x"
  ∧ startsWith (js "/") (js "a/b/seg.ts.ts") = false.
Proof.
  destruct (reference_match_sound (js ".ts") (js "a/b/seg.ts.ts?x") (js "a/b/seg.ts.ts")
              (js "?x") eq_refl) as (H1 & _ & _ & [[[H|H] _]|[H _]]).
  - discriminate H.
  - discriminate H.
  - split; [exact H1|exact H].
Defined.

(** ** Proxy requests for a stored session *)

Lemma count_slashes_zero (x : jsstring) :
  count_slashes x = 0%nat → Forall (λ c, (c =? ch "/") = false) x.
Proof.
  unfold count_slashes. induction x as [|c x IH]; [constructor|]. simpl.
  destruct (c =? ch "/") eqn:E; [done|]. intros H. constructor; [done|by apply IH].
Qed.

(** The parts of the path of a proxy URL whose session id and tokens hold no
    slash. *)
Lemma proxy_path_parts (sid q f : jsstring) :
  count_slashes sid = 0%nat → count_slashes q = 0%nat → count_slashes f = 0%nat →
  split (ch "/") (js "/file2/" ++ sid ++ js "/" ++ q ++ js "/" ++ f)
  = [[]; js "file2"; sid; q; f].
Proof.
  intros Hs%count_slashes_zero Hq%count_slashes_zero Hf%count_slashes_zero. unfold split.
  change (js "/file2/" ++ sid ++ js "/" ++ q ++ js "/" ++ f)
    with ([] ++ ch "/" :: js "file2" ++ ch "/" :: sid ++ ch "/" :: q ++ ch "/" :: f).
  rewrite !split_by_separator by apply N.eqb_refl.
  rewrite (split_by_no_separator _ sid Hs), (split_by_no_separator _ q Hq),
    (split_by_no_separator _ f Hf).
  reflexivity.
Qed.

Lemma proxy_path_slashes (sid q f : jsstring) :
  count_slashes (js "/file2/" ++ sid ++ js "/" ++ q ++ js "/" ++ f) = 4%nat →
  count_slashes sid = 0%nat ∧ count_slashes q = 0%nat ∧ count_slashes f = 0%nat.
Proof.
  rewrite !count_slashes_app. change (count_slashes (js "/file2/")) with 2%nat.
  change (count_slashes (js "/")) with 1%nat. lia.
Qed.

Lemma in_alphabet_not_dot (t : jsstring) :
  Forall in_alphabet t → remove_first (js ".m3u8") t = t.
Proof.
  induction 1 as [|c t Hc Ht IH]; [done|].
  assert (c ≠ ch ".") as Hdot.
  { intros ->. destruct Hc as [v Hv]. vm_compute in Hv. discriminate. }
  change (js ".m3u8") with (ch "." :: js "m3u8") in *. cbn [remove_first strip_prefix].
  destruct (N.eqb_spec (ch ".") c) as [E|_]; [by destruct Hdot|]. by rewrite IH.
Qed.

Lemma encode_Some_latin1 (s t : jsstring) : encode s = Some t → Forall (λ c, c ≤ 255) s.
Proof.
  unfold encode, Base64.btoa. destruct (forallb _ s) eqn:E; [|done]. intros _.
  apply List.Forall_forall. intros c Hc. rewrite forallb_forall in E.
  by apply N.leb_le, E.
Qed.

(** The upstream URL of a proxy request for [filename] at [quality], for a
    session whose origin URL is the string [u] (lines 105-106, 154-163 and
    270-278; [filename] is never [master.m3u8]). *)
Definition proxy_target (u quality filename : jsstring) : jsstring :=
  if is_segment filename then
    substring0 (lastIndexOf (js "/") u) u ++ js "/" ++ filename
  else if str_eqb filename (js "index.m3u8") || str_eqb filename (js "playlist.m3u8") then
    substring0 (lastIndexOf (js "/") u) u ++ js "/" ++ quality ++ js "/index.m3u8"
  else u.

Lemma proxy_live_session (e : env) (sessions : store) (origin pathname : jsstring)
    (sid quality filename u : jsstring) (s : session) :
  let pathParts := split (ch "/") pathname in
  (5 ≤ length pathParts)%nat →
  nth 2 pathParts [] = sid →
  decode (nth 3 pathParts []) = Some quality →
  decode (remove_first (js ".m3u8") (nth 4 pathParts [])) = Some filename →
  sessions !! sid = Some s → originalUrl s = JStr u → (now e ≤ expiresAt s)%Z →
  let o := handleDatacrateProxy e sessions origin pathname in
  out_store o = sessions
  ∧ out_effects o = [StoreGet sid; Fetch (JStr (proxy_target u quality filename))].
Proof.
  intros pathParts Hlen Hk Hq Hf Hs Hu Ht o. subst o. unfold handleDatacrateProxy.
  fold pathParts. destruct (Nat.ltb_spec (length pathParts) 5); [lia|].
  rewrite Hq, Hf, Hk. rewrite (getSession_live _ _ _ _ Hs Ht), Hu.
  pose proof (decode_not_master _ _ Hf) as Hnm. unfold proxy_target.
  destruct (is_segment filename).
  - unfold proxyVideoSegment, baseUrl.
    destruct (upstream e _) as [err|r]; [done|]. by destruct (ok r).
  - unfold proxyM3U8Playlist, targetUrl, baseUrl. rewrite Hnm.
    destruct (str_eqb filename (js "index.m3u8") || str_eqb filename (js "playlist.m3u8"));
      (destruct (upstream e _) as [err|r]; [done|]); (destruct (ok r); [|done]);
      by destruct (rewritePlaylist _ _ _ _ _).
Qed.

Lemma proxy_undecodable (e : env) (sessions : store) (origin pathname : jsstring) :
  let pathParts := split (ch "/") pathname in
  (5 ≤ length pathParts)%nat →
  decode (nth 3 pathParts []) = None
  ∨ decode (remove_first (js ".m3u8") (nth 4 pathParts [])) = None →
  let o := handleDatacrateProxy e sessions origin pathname in
  status (out_response o) = 400 ∧ out_store o = sessions ∧ out_effects o = [].
Proof.
  intros pathParts Hlen Hd o. subst o. unfold handleDatacrateProxy.
  fold pathParts. destruct (Nat.ltb_spec (length pathParts) 5); [lia|].
  destruct Hd as [-> | Hd]; [done|]. rewrite Hd.
  by destruct (decode (nth 3 pathParts [])).
Qed.

(** ** Session creation: what is refused *)

(** X17.  What a store-session request is refused for: any method other
    than POST (and OPTIONS) is answered 405; a POST whose body is not JSON, or
    is the JSON [null], is answered 400 [Invalid JSON payload]; a POST whose
    body is a JSON boolean, number, string or array is answered 400
    [sessionId and originalUrl are required].  None of them changes the
    store. *)
Theorem store_session_refusals (e : env) (sessions : store) (req : request) :
  method req ≠ js "OPTIONS" →
  startsWith (js "/store-session") (url_pathname req) = true →
  let o := fetch e sessions req in
  (method req ≠ js "POST" →
     status (out_response o) = 405
     ∧ resp_body (out_response o) = BodyText (js "Method not allowed")
     ∧ out_store o = sessions ∧ out_effects o = [])
  ∧ (method req = js "POST" → payload req = None ∨ payload req = Some JNull →
     status (out_response o) = 400
     ∧ resp_body (out_response o)
       = BodyJson [(js "error", FString (js "Invalid JSON payload"))]
     ∧ out_store o = sessions ∧ out_effects o = [])
  ∧ (method req = js "POST" →
     (∃ b, payload req = Some (JBool b)) ∨ (∃ x, payload req = Some (JNum x))
     ∨ (∃ s, payload req = Some (JStr s)) ∨ (∃ l, payload req = Some (JArr l)) →
     status (out_response o) = 400
     ∧ resp_body (out_response o)
       = BodyJson [(js "error", FString (js "sessionId and originalUrl are required"))]
     ∧ out_store o = sessions ∧ out_effects o = []).
Proof.
  intros Hopt Hp o. subst o. unfold fetch.
  apply str_eqb_neq in Hopt. rewrite Hopt, Hp. unfold handleStoreSession.
  split; [|split].
  - intros Hm. apply str_eqb_neq in Hm. by rewrite Hm.
  - intros Hm Hpay. apply str_eqb_eq in Hm. rewrite Hm. cbn [negb].
    by destruct Hpay as [-> | ->].
  - intros Hm Hpay. apply str_eqb_eq in Hm. rewrite Hm. cbn [negb].
    by destruct Hpay as [[b ->]|[[x ->]|[[s ->]|[l ->]]]].
Qed.

Lemma store_session_refusals_witness :
  let req := Request (js "GET") (js "https://proxy.example") (js "/store-session") None in
  status (out_response (fetch sample_env ∅ req)) = 405.
Proof.
  intros req.
  destruct (store_session_refusals sample_env ∅ req) as [H _].
  - vm_compute. discriminate.
  - reflexivity.
  - apply H. vm_compute. discriminate.
Defined.

(** ** From a stored session to its upstream fetch *)

(** X18.  A session stored by a POST to [/store-session] (string id and
    string origin URL, both non-empty) is served by a later proxy request for
    that id whose tokens decode, up to 24 hours later: the request leaves the
    store as it is, reads the session and makes one upstream fetch, of the
    segment under the directory of the origin URL, or of
    [{directory}/{quality}/index.m3u8] for [index.m3u8] and [playlist.m3u8],
    or of the origin URL itself for any other playlist name. *)
Theorem stored_session_is_served (e0 e1 : env) (sessions : store) (store_req proxy_req : request)
    (fields : list (jsstring * json)) (sid u quality filename : jsstring) :
  method store_req = js "POST" →
  startsWith (js "/store-session") (url_pathname store_req) = true →
  payload store_req = Some (JObj fields) →
  own_property (js "sessionId") fields = Some (JStr sid) → sid ≠ [] →
  own_property (js "originalUrl") fields = Some (JStr u) → u ≠ [] →
  method proxy_req ≠ js "OPTIONS" →
  startsWith (js "/file2/") (url_pathname proxy_req) = true →
  let pathParts := split (ch "/") (url_pathname proxy_req) in
  (5 ≤ length pathParts)%nat →
  nth 2 pathParts [] = sid →
  decode (nth 3 pathParts []) = Some quality →
  decode (remove_first (js ".m3u8") (nth 4 pathParts [])) = Some filename →
  (0 ≤ now e0)%Z → (now e1 ≤ now e0 + 86400000)%Z →
  let stored := out_store (fetch e0 sessions store_req) in
  let o := fetch e1 stored proxy_req in
  out_store o = stored
  ∧ out_effects o = [StoreGet sid; Fetch (JStr (proxy_target u quality filename))].
Proof.
  intros Hm Hp Hpay Hsid Hsne Hurl Hune Hm2 Hp2 pathParts Hlen Hk Hq Hf Ht0 Ht1 stored o.
  assert (stored = storeSession sessions (now e0) (JStr sid) (JStr u)
                     (own_property (js "metadata") fields)) as Hstored.
  { subst stored. unfold fetch. rewrite Hm, Hp, Hpay.
    change (str_eqb (js "POST") (js "OPTIONS")) with false. cbv iota.
    unfold handleStoreSession. change (negb (str_eqb (js "POST") (js "POST"))) with false.
    cbv iota. unfold get_property. rewrite Hsid, Hurl. cbn [truthy].
    apply str_eqb_neq in Hsne, Hune. by rewrite Hsne, Hune. }
  subst o. rewrite (fetch_file2 _ _ _ Hm2 Hp2).
  apply (proxy_live_session e1 stored (url_origin proxy_req) (url_pathname proxy_req)
           sid quality filename u
           {| originalUrl := JStr u;
              metadata := default (JObj []) (own_property (js "metadata") fields);
              timestamp := now e0;
              expiresAt := (now e0 + 24 * 60 * 60 * 1000)%Z |}); try done.
  rewrite Hstored. unfold storeSession. apply lookup_insert_eq.
Qed.

Lemma stored_session_is_served_witness :
  let store_req :=
    Request (js "POST") (js "https://proxy.example") (js "/store-session")
      (Some (JObj [(js "sessionId", JStr (js "abc"));
                   (js "originalUrl", JStr (js "https://cdn.example/v/master.m3u8"))])) in
  let proxy_req :=
    Request (js "GET") (js "https://proxy.example")
      (js "/file2/abc/NzIwcA/aW5kZXgubTN1OA.m3u8") None in
  out_effects (fetch sample_env (out_store (fetch sample_env ∅ store_req)) proxy_req)
  = [StoreGet (js "abc"); Fetch (JStr (js "https://cdn.example/v/720p/index.m3u8"))].
Proof.
  intros store_req proxy_req.
  destruct (stored_session_is_served sample_env sample_env ∅ store_req proxy_req
              [(js "sessionId", JStr (js "abc"));
               (js "originalUrl", JStr (js "https://cdn.example/v/master.m3u8"))]
              (js "abc") (js "https://cdn.example/v/master.m3u8") (js "720p")
              (js "index.m3u8")) as [_ H];
    [reflexivity|reflexivity|reflexivity|reflexivity|discriminate|reflexivity|discriminate
    |discriminate|reflexivity|vm_compute; lia|reflexivity|reflexivity|reflexivity
    |discriminate|discriminate|exact H].
Defined.

(** ** From a rewritten playlist back to the origin *)

(** X19.  The URL that the media rewriter emits for a reference, when
    requested back: let the path of that URL hold exactly four slashes (so
    neither the session id nor a token holds one) and let the session be
    stored, unexpired, with a string as origin URL.  If the lengths of the
    quality and of the name (the text after the last slash of the reference)
    are both one more than a multiple of three, the request leaves the store
    as it is, reads the session and makes one upstream fetch, of
    [proxy_target]: for a segment name (one that ends in [.ts], or holds
    none of [.m3u8], [master], [index]) the name put after the directory of
    the session's origin URL, whatever directory the reference named; for the
    names [index.m3u8] and [playlist.m3u8]
    [{directory}/{quality}/index.m3u8]; for any other name the origin URL
    itself.  For any other length the request is answered 400 and nothing is
    read or fetched. *)
Theorem emitted_segment_url_is_served (e : env) (sessions : store) (req : request)
    (s : session) (origin sid quality m path u : jsstring) :
  media_callback origin sid quality m = Some (origin ++ path) →
  count_slashes path = 4%nat →
  method req ≠ js "OPTIONS" → url_pathname req = path →
  sessions !! sid = Some s → originalUrl s = JStr u → (now e ≤ expiresAt s)%Z →
  let name := pop (split (ch "/") m) in
  let o := fetch e sessions req in
  if ((length quality mod 3 =? 1) && (length name mod 3 =? 1))%nat then
    out_store o = sessions
    ∧ out_effects o = [StoreGet sid; Fetch (JStr (proxy_target u quality name))]
  else
    status (out_response o) = 400 ∧ out_store o = sessions ∧ out_effects o = [].
Proof.
  intros Hcb Hslashes Hm Hp Hs Hu Ht name o. subst o.
  unfold media_callback in Hcb. fold name in Hcb.
  destruct (encode name) as [fb|] eqn:Ef; [|done].
  destruct (encode quality) as [qb|] eqn:Eq; [|done].
  cbn [mbind option_bind] in Hcb. apply (inj Some), app_inv_head in Hcb. subst path.
  apply proxy_path_slashes in Hslashes as (H1 & H2 & H3).
  pose proof (proxy_path_parts sid qb fb H1 H2 H3) as Hparts.
  assert (startsWith (js "/file2/") (url_pathname req) = true) as Hroute.
  { rewrite Hp. apply startsWith_true. by eexists. }
  rewrite (fetch_file2 _ _ _ Hm Hroute), Hp.
  pose proof (encoded_token_decodes _ _ (encode_Some_latin1 _ _ Eq) Eq) as Hdq.
  pose proof (encoded_token_decodes _ _ (encode_Some_latin1 _ _ Ef) Ef) as Hdf.
  destruct (length quality mod 3 =? 1)%nat; cbn [andb].
  - destruct (length name mod 3 =? 1)%nat.
    + apply (proxy_live_session e sessions (url_origin req) _ sid quality name u s);
        rewrite ?Hparts; try done.
      cbn [nth]. by rewrite (in_alphabet_not_dot _ (encode_in_alphabet _ _ Ef)).
    + apply proxy_undecodable; rewrite Hparts; [done|]. right.
      cbn [nth]. by rewrite (in_alphabet_not_dot _ (encode_in_alphabet _ _ Ef)).
  - apply proxy_undecodable; rewrite Hparts; [done|]. by left.
Qed.

Lemma emitted_segment_url_is_served_witness :
  out_effects
    (fetch (Env 1700000000001 (sample_upstream (js "#EXTM3U"))) leaking_store
       (Request (js "GET") (js "https://proxy.example") (js "/file2/abc/NzIwcA/c2VnMS50cw")
          None))
  = [StoreGet (js "abc"); Fetch (JStr (js "https://cdn.example/v/seg1.ts"))].
Proof.
  destruct (emitted_segment_url_is_served
              (Env 1700000000001 (sample_upstream (js "#EXTM3U"))) leaking_store
              (Request (js "GET") (js "https://proxy.example")
                 (js "/file2/abc/NzIwcA/c2VnMS50cw") None)
              (Session (JStr (js "https://cdn.example/v/master.m3u8")) (JObj [])
                 1700000000000 1700086400000)
              (js "https://proxy.example") (js "abc") (js "720p")
              (js "https://cdn.example/v/720p/seg1.ts") (js "/file2/abc/NzIwcA/c2VnMS50cw")
              (js "https://cdn.example/v/master.m3u8")) as [_ H];
    [reflexivity|reflexivity|vm_compute; discriminate|reflexivity
    |apply lookup_insert_eq|reflexivity|simpl; lia|exact H].
Defined.

(** X20.  The URL that the master rewriter emits for a variant, when
    requested back under the same conditions: if the length of the detected
    quality is one more than a multiple of three ([720p], [high],
    [unknown]), the request reads the session and fetches
    [{directory of the origin URL}/{quality}/index.m3u8], whatever the
    variant's own URL was; for any other length ([1080p], [low], [med]) it
    is answered 400 and nothing is read or fetched. *)
Theorem emitted_variant_url_is_served (e : env) (sessions : store) (req : request)
    (s : session) (origin sid m path u : jsstring) :
  master_callback origin sid m = Some (origin ++ path) →
  count_slashes path = 4%nat →
  method req ≠ js "OPTIONS" → url_pathname req = path →
  sessions !! sid = Some s → originalUrl s = JStr u → (now e ≤ expiresAt s)%Z →
  let quality := detectedQuality m in
  let o := fetch e sessions req in
  if (length quality mod 3 =? 1)%nat then
    out_store o = sessions
    ∧ out_effects o
      = [StoreGet sid;
         Fetch (JStr (substring0 (lastIndexOf (js "/") u) u ++ js "/" ++ quality
                      ++ js "/index.m3u8"))]
  else
    status (out_response o) = 400 ∧ out_store o = sessions ∧ out_effects o = [].
Proof.
  intros Hcb Hslashes Hm Hp Hs Hu Ht quality o. subst o.
  unfold master_callback in Hcb. fold quality in Hcb.
  destruct (encode quality) as [qb|] eqn:Eq; [|done].
  change (encode (js "index.m3u8")) with (Some (js "aW5kZXgubTN1OA")) in Hcb.
  cbn [mbind option_bind] in Hcb. apply (inj Some), app_inv_head in Hcb. subst path.
  apply proxy_path_slashes in Hslashes as (H1 & H2 & H3).
  pose proof (proxy_path_parts sid qb _ H1 H2 H3) as Hparts.
  assert (startsWith (js "/file2/") (url_pathname req) = true) as Hroute.
  { rewrite Hp. apply startsWith_true. by eexists. }
  rewrite (fetch_file2 _ _ _ Hm Hroute), Hp.
  pose proof (encoded_token_decodes _ _ (encode_Some_latin1 _ _ Eq) Eq) as Hdq.
  destruct (length quality mod 3 =? 1)%nat.
  - apply (proxy_live_session e sessions (url_origin req) _ sid quality (js "index.m3u8") u s);
      rewrite ?Hparts; done.
  - apply proxy_undecodable; rewrite Hparts; [done|]. by left.
Qed.

Lemma emitted_variant_url_is_served_witness :
  out_effects
    (fetch (Env 1700000000001 (sample_upstream (js "#EXTM3U"))) leaking_store
       (Request (js "GET") (js "https://proxy.example")
          (js "/file2/abc/NzIwcA/aW5kZXgubTN1OA.m3u8") None))
  = [StoreGet (js "abc"); Fetch (JStr (js "https://cdn.example/v/720p/index.m3u8"))].
Proof.
  destruct (emitted_variant_url_is_served
              (Env 1700000000001 (sample_upstream (js "#EXTM3U"))) leaking_store
              (Request (js "GET") (js "https://proxy.example")
                 (js "/file2/abc/NzIwcA/aW5kZXgubTN1OA.m3u8") None)
              (Session (JStr (js "https://cdn.example/v/master.m3u8")) (JObj [])
                 1700000000000 1700086400000)
              (js "https://proxy.example") (js "abc")
              (js "https://cdn.example/v/720p/video.m3u8")
              (js "/file2/abc/NzIwcA/aW5kZXgubTN1OA.m3u8")
              (js "https://cdn.example/v/master.m3u8")) as [_ H];
    [reflexivity|reflexivity|vm_compute; discriminate|reflexivity
    |apply lookup_insert_eq|reflexivity|simpl; lia|exact H].
Defined.

(** ** The statuses of the worker *)

Lemma length_split_by (p : N → bool) (s : jsstring) :
  length (split_by p s) = Datatypes.S (length (List.filter p s)).
Proof.
  induction s as [|c s IH]; [done|]. simpl. destruct (p c); simpl; [by rewrite IH|].
  destruct (split_by p s); [done|]. exact IH.
Qed.

Lemma ok_status (r : upstream_response) : ok r = true → 200 ≤ up_status r ≤ 299.
Proof. unfold ok. intros [H1%N.leb_le H2%N.leb_le]%andb_true_iff. lia. Qed.

(** X21.  A proxy request is answered 400 exactly when its path has fewer
    than five parts (fewer than four slashes) or one of its two tokens is
    refused by the decoding; no failure of the session lookup, of the
    upstream fetch or of the rewriting is ever reported as 400. *)
Theorem proxy_bad_request (e : env) (sessions : store) (req : request) :
  method req ≠ js "OPTIONS" →
  startsWith (js "/file2/") (url_pathname req) = true →
  let pathParts := split (ch "/") (url_pathname req) in
  status (out_response (fetch e sessions req)) = 400
  ↔ (count_slashes (url_pathname req) < 4)%nat
    ∨ decode (nth 3 pathParts []) = None
    ∨ decode (remove_first (js ".m3u8") (nth 4 pathParts [])) = None.
Proof.
  intros Hm Hp pathParts. rewrite (fetch_file2 _ _ _ Hm Hp). unfold handleDatacrateProxy.
  fold pathParts.
  assert (length pathParts = Datatypes.S (count_slashes (url_pathname req))) as Hlen.
  { apply length_split_by. }
  destruct (Nat.ltb_spec (length pathParts) 5) as [Hlt|Hge].
  { split; [left; lia|done]. }
  destruct (decode (nth 3 pathParts [])) as [quality|]; [|split; [by right; left|done]].
  destruct (decode (remove_first _ _)) as [filename|]; [|split; [by right; right|done]].
  split; [|intros [?|[?|?]]; [lia|done|done]].
  destruct (getSession _ _ _) as [[[data|] sessions'] reads]; [|done].
  destruct (is_segment filename).
  - unfold proxyVideoSegment. destruct (baseUrl _); [done|].
    destruct (upstream e _) as [err|r]; [done|]. destruct (ok r) eqn:Hok; [|done].
    apply ok_status in Hok. cbn [out_response status addCorsHeaders]. lia.
  - unfold proxyM3U8Playlist. destruct (targetUrl _ _ _); [done|].
    destruct (upstream e _) as [err|r]; [done|]. destruct (ok r); [|done].
    by destruct (rewritePlaylist _ _ _ _ _).
Qed.

Lemma proxy_bad_request_witness :
  status (out_response
    (fetch sample_env ∅
       (Request (js "GET") (js "https://proxy.example") (js "/file2/abc/NzIwcA") None)))
  = 400.
Proof.
  apply proxy_bad_request.
  - vm_compute. discriminate.
  - reflexivity.
  - left. vm_compute. lia.
Defined.

(** X22.  Every response of the worker has status 200, 400, 404, 405, 410
    or 500, except a proxied segment, which keeps the status of a successful
    upstream answer (200 to 299): the worker never forwards an upstream
    error or redirect status. *)
Theorem response_statuses (e : env) (sessions : store) (req : request) :
  let r := out_response (fetch e sessions req) in
  status r ∈ [200; 400; 404; 405; 410; 500]
  ∨ (∃ bytes, resp_body r = BodyStream bytes) ∧ 200 ≤ status r ≤ 299.
Proof.
  intros r. subst r. unfold fetch.
  destruct (str_eqb (method req) (js "OPTIONS")); [left; set_solver|].
  destruct (startsWith (js "/store-session") (url_pathname req)).
  { unfold handleStoreSession. left.
    destruct (negb _); [set_solver|]. destruct (payload req) as [v|]; [|set_solver].
    destruct v; try set_solver;
      (destruct (negb _ || negb _); [set_solver|]);
      try (destruct (get_property _ (js "sessionId")) as [sid|]; [|set_solver]);
      try (destruct (get_property _ (js "originalUrl")) as [url|]; [|set_solver]);
      set_solver. }
  destruct (startsWith (js "/file2/") (url_pathname req)).
  { unfold handleDatacrateProxy.
    destruct (_ <? 5)%nat; [left; set_solver|].
    destruct (decode _); [|left; set_solver].
    destruct (decode _); [|left; set_solver].
    destruct (getSession _ _ _) as [[[data|] sessions'] reads]; [|left; set_solver].
    destruct (is_segment _).
    - unfold proxyVideoSegment. destruct (baseUrl _); [left; set_solver|].
      destruct (upstream e _) as [err|up]; [left; set_solver|].
      destruct (ok up) eqn:Hok; [|left; set_solver].
      right. split; [by eexists|]. by apply ok_status.
    - unfold proxyM3U8Playlist. destruct (targetUrl _ _ _); [left; set_solver|].
      destruct (upstream e _) as [err|up]; [left; set_solver|].
      destruct (ok up); [|left; set_solver].
      destruct (rewritePlaylist _ _ _ _ _); left; set_solver. }
  destruct (startsWith (js "/stream/") (url_pathname req)).
  { unfold handleLegacyProxy. cbn [out_response]. destruct (_ <? 5)%nat; left; set_solver. }
  destruct (str_eqb (url_pathname req) (js "/health")); left; set_solver.
Qed.

(** ** Master playlists, line by line *)

(** X23.  In a master playlist, every line whose head is a matched
    reference becomes the proxy URL
    [{origin}/file2/{S}/{token}/aW5kZXgubTN1OA.m3u8] followed by the rest of
    the line, the token being the encoding of the quality detected in the
    reference: the variant's own file name is dropped, and the quality of the
    request plays no part. *)
Theorem master_variant_rewrite (origin S quality body out : jsstring) :
  Forall (λ c, is_line_terminator c = false) origin →
  Forall (λ c, is_line_terminator c = false) S →
  rewritePlaylist origin S (js "master.m3u8") quality body = Some out →
  ∀ (i : nat) (l m rest : jsstring),
    lines body !! i = Some l →
    match_reference (js ".m3u8") l = Some (m, rest) →
    ∃ qualityB64,
      encode (detectedQuality m) = Some qualityB64
      ∧ lines out !! i
        = Some ((origin ++ js "/file2/" ++ S ++ js "/" ++ qualityB64 ++ js "/"
                 ++ js "aW5kZXgubTN1OA" ++ js ".m3u8") ++ rest).
Proof.
  intros Ho Hs Hout i l m rest Hi Hm.
  destruct (rewritePlaylist_by_line _ _ _ _ _ _ Ho Hs Hout) as [_ Hmap].
  destruct (Forall2_lookup_l _ _ _ _ _ Hmap Hi) as (l' & Hi' & Hl').
  change (playlist_pattern (js "master.m3u8")) with (js ".m3u8") in Hl'.
  change (playlist_callback origin S (js "master.m3u8") quality)
    with (master_callback origin S) in Hl'.
  unfold rewrite_line in Hl'. rewrite Hm in Hl'. unfold master_callback in Hl'.
  destruct (encode (detectedQuality m)) as [qb|]; [|done].
  change (encode (js "index.m3u8")) with (Some (js "aW5kZXgubTN1OA")) in Hl'.
  cbn [mbind option_bind] in Hl'. exists qb. split; [done|]. rewrite Hi'. f_equal.
  by injection Hl' as <-.
Qed.

Lemma master_variant_rewrite_witness :
  let body := js "#EXTM3U" ++ LF ++ js "https://cdn.example/v/1080p/video.m3u8" ++ LF in
  let out := js "#EXTM3U" ++ LF
             ++ js "https://proxy.example/file2/abc/MTA4MHA/aW5kZXgubTN1OA.m3u8" ++ LF in
  lines out !! 1%nat
  = Some ((js "https://proxy.example" ++ js "/file2/" ++ js "abc" ++ js "/" ++ js "MTA4MHA"
           ++ js "/" ++ js "aW5kZXgubTN1OA" ++ js ".m3u8") ++ []).
Proof.
  intros body out.
  destruct (master_variant_rewrite (js "https://proxy.example") (js "abc") (js "q")
              body out) with (i := 1%nat) (l := js "https://cdn.example/v/1080p/video.m3u8")
              (m := js "https://cdn.example/v/1080p/video.m3u8") (rest := @nil N)
    as (qb & Hq & Hline).
  - by apply Forall_false_literal.
  - by apply Forall_false_literal.
  - vm_compute. reflexivity.
  - reflexivity.
  - vm_compute. reflexivity.
  - rewrite Hline.
    change (encode (detectedQuality (js "https://cdn.example/v/1080p/video.m3u8")))
      with (Some (js "MTA4MHA")) in Hq.
    injection Hq as <-. reflexivity.
Defined.

(** ** Playlists: what is answered *)

(** X24.  What proxyM3U8Playlist answers, case by case.  When the target
    URL cannot be built (the origin URL is no string) nothing is fetched and
    the answer is 500 with that error.  Otherwise exactly the target URL is
    fetched, once: a rejected fetch is answered 500 with its error; an
    upstream status outside 200-299 is answered 500 with the message
    [Failed to fetch playlist: {status} {statusText}]; a text on which the
    rewriter raises is answered 500 with that error; and any other text is
    answered 200 with the rewritten playlist as body, served as
    [application/vnd.apple.mpegurl] and not to be cached.  Every 500 has a
    JSON body that names the cause, the filename and the quality. *)
Theorem playlist_proxying (e : env) (url : json)
    (filename quality sessionPath origin : jsstring) :
  let '(r, effects) := proxyM3U8Playlist e url filename quality sessionPath origin in
  let failure (err : error) :=
    status r = 500
    ∧ resp_body r
      = BodyJson [(js "error", FString (js "Playlist not available"));
                  (js "details", FMessage err);
                  (js "filename", FString filename);
                  (js "quality", FString quality)]
    ∧ (js "Content-Type", js "application/json") ∈ headers r in
  match targetUrl url filename quality with
  | inl err => effects = [] ∧ failure err
  | inr target =>
      effects = [Fetch target]
      ∧ match upstream e target with
        | inl err => failure err
        | inr up =>
            if ok up then
              match rewritePlaylist origin sessionPath filename quality (up_text up) with
              | Some out =>
                  status r = 200 ∧ resp_body r = BodyText out
                  ∧ (js "Content-Type", js "application/vnd.apple.mpegurl") ∈ headers r
                  ∧ (js "Cache-Control", js "no-cache, no-store, must-revalidate")
                    ∈ headers r
                  ∧ (js "Pragma", js "no-cache") ∈ headers r
                  ∧ (js "Expires", js "0") ∈ headers r
              | None => failure InvalidCharacterError
              end
            else
              failure (Error (js "Failed to fetch playlist: " ++ decimal (up_status up)
                              ++ js " " ++ up_statusText up))
        end
  end.
Proof.
  assert (∀ code fields,
            (js "Content-Type", js "application/json")
            ∈ headers (json_response code fields)) as Hjson.
  { intros code fields. apply addCorsHeaders_keeps; [by apply not_cors_name|].
    apply list_elem_of_In. simpl. tauto. }
  unfold proxyM3U8Playlist, playlist_error.
  destruct (targetUrl url filename quality) as [err|target]; [by repeat split|].
  destruct (upstream e target) as [err|up]; [by repeat split|].
  destruct (ok up); [|by repeat split].
  destruct (rewritePlaylist _ _ _ _ _) as [out|]; [|by repeat split].
  repeat split; try done;
    (apply addCorsHeaders_keeps; [by apply not_cors_name|]);
    apply list_elem_of_In; simpl; tauto.
Qed.

(** ** A master manifest through the worker *)

(** The master manifest of the example: a comment line and two relative
    variant references. *)
Definition master_manifest : jsstring :=
  js "#EXTM3U" ++ LF ++ js "1080p/index.m3u8" ++ LF ++ js "720p/index.m3u8".

(** What it should be rewritten to for session [S]: the comment line, then
    the proxy URLs of the qualities [1080p] and [720p]. *)
Definition rewritten_master_manifest (origin S : jsstring) : jsstring :=
  js "#EXTM3U" ++ LF
  ++ (origin ++ js "/file2/" ++ S ++ js "/" ++ js "MTA4MHA" ++ js "/"
      ++ js "aW5kZXgubTN1OA" ++ js ".m3u8") ++ LF
  ++ (origin ++ js "/file2/" ++ S ++ js "/" ++ js "NzIwcA" ++ js "/"
      ++ js "aW5kZXgubTN1OA" ++ js ".m3u8").

(** The media rewriting, which is all that a request can reach, matches no
    line of it. *)
Lemma media_rewrite_master_manifest (origin S filename quality : jsstring) :
  str_eqb filename (js "master.m3u8") = false →
  rewritePlaylist origin S filename quality master_manifest = Some master_manifest.
Proof. intros Hf. unfold rewritePlaylist. rewrite Hf. vm_compute. reflexivity. Qed.

Lemma master_manifest_differs (origin S : jsstring) :
  master_manifest ≠ rewritten_master_manifest origin S.
Proof.
  intros E. apply (f_equal (@rev N)) in E. revert E.
  unfold rewritten_master_manifest. rewrite !app_assoc, rev_app_distr.
  rewrite (rev_app_distr _ (js "aW5kZXgubTN1OA")). vm_compute. discriminate.
Qed.

Lemma text_not_rewritten_master (text origin S : jsstring) :
  startsWith (js "#") text = false →
  BodyText text ≠ BodyText (rewritten_master_manifest origin S).
Proof. intros H [= ->]. discriminate H. Qed.

(** C2.  A master manifest does not come out of the worker as the claim
    says.  Let the upstream answer every fetch with the master manifest of
    the claim.  Then, whatever the store and the request, the response body
    is never the rewritten manifest of the claim, for any origin and session
    id; and every playlist that a proxy request is answered with is the
    manifest exactly as it came, both references left relative.  So it is
    for the request [/file2/abc/NzIwcA/dmlkZW8ubTN1OA] (filename
    [video.m3u8]) of a stored session, which fetches the session's origin URL
    and returns its text unchanged; and the request that names
    [master.m3u8], the one filename for which lines 183-193 would run, is
    answered 400 since its token does not decode. *)
Theorem master_manifest_is_not_rewritten (t : Z) (sessions : store) (req : request) :
  let e := Env t (sample_upstream master_manifest) in
  let r := out_response (fetch e sessions req) in
  (∀ origin S, resp_body r ≠ BodyText (rewritten_master_manifest origin S))
  ∧ (∀ out, method req ≠ js "OPTIONS" →
       startsWith (js "/file2/") (url_pathname req) = true →
       status r = 200 → resp_body r = BodyText out → out = master_manifest)
  ∧ (let served :=
       fetch (Env 1700000000001 (sample_upstream master_manifest)) leaking_store
         (Request (js "GET") (js "https://proxy.example")
            (js "/file2/abc/NzIwcA/dmlkZW8ubTN1OA") None) in
     decode (js "dmlkZW8ubTN1OA") = Some (js "video.m3u8")
     ∧ out_effects served
       = [StoreGet (js "abc"); Fetch (JStr (js "https://cdn.example/v/master.m3u8"))]
     ∧ status (out_response served) = 200
     ∧ resp_body (out_response served) = BodyText master_manifest)
  ∧ (let refused :=
       fetch (Env 1700000000001 (sample_upstream master_manifest)) leaking_store
         (Request (js "GET") (js "https://proxy.example")
            (js "/file2/abc/NzIwcA/bWFzdGVyLm0zdTg.m3u8") None) in
     encode (js "master.m3u8") = Some (js "bWFzdGVyLm0zdTg")
     ∧ status (out_response refused) = 400
     ∧ out_effects refused = []).
Proof.
  intros e r.
  assert (∀ out, startsWith (js "/file2/") (url_pathname req) = true →
            str_eqb (method req) (js "OPTIONS") = false →
            resp_body r = BodyText out →
            out = master_manifest ∨ (status r ≠ 200 ∧ startsWith (js "#") out = false))
    as Hproxy.
  { intros out Hp Hm. subst r. unfold fetch.
    rewrite Hm, (file2_not_store_session _ Hp), Hp. unfold handleDatacrateProxy.
    destruct (_ <? 5)%nat; [intros [= <-]; by right|].
    destruct (decode _) as [quality|]; [|done].
    destruct (decode _) as [filename|] eqn:Hf; [|done].
    apply decode_not_master in Hf.
    destruct (getSession _ _ _) as [[[data|] sessions'] reads]; [|done].
    destruct (is_segment filename).
    - unfold proxyVideoSegment. by destruct (baseUrl _).
    - unfold proxyM3U8Playlist. destruct (targetUrl _ _ _) as [err|target]; [done|].
      cbn [e upstream sample_upstream ok up_status up_text]. cbn [N.leb andb].
      change ((200 <=? 200) && (200 <=? 299)) with true. cbv iota.
      rewrite (media_rewrite_master_manifest _ _ _ _ Hf).
      intros [= <-]. by left. }
  split; [|split; [|split]].
  - intros origin S.
    destruct (str_eqb (method req) (js "OPTIONS")) eqn:Hm in |- *.
    { unfold r, fetch. by rewrite Hm. }
    destruct (startsWith (js "/file2/") (url_pathname req)) eqn:Hfile2 in |- *.
    { intros Hbody.
      destruct (Hproxy (rewritten_master_manifest origin S) Hfile2 Hm Hbody) as [E|[_ E]].
      - symmetry in E. by apply master_manifest_differs in E.
      - discriminate E. }
    clear Hproxy. unfold r, fetch. rewrite Hm, Hfile2.
    destruct (startsWith (js "/store-session") (url_pathname req)).
    { unfold handleStoreSession.
      destruct (negb _); [by apply text_not_rewritten_master|].
      destruct (payload req) as [v|]; [|done].
      destruct v; try done;
        (destruct (negb _ || negb _); [done|]);
        try (destruct (get_property _ (js "sessionId")) as [sid|]; [|done]);
        try (destruct (get_property _ (js "originalUrl")) as [url|]; [|done]);
        done. }
    destruct (startsWith (js "/stream/") (url_pathname req)).
    { unfold handleLegacyProxy. cbn [out_response].
      destruct (_ <? 5)%nat; [by apply text_not_rewritten_master|done]. }
    destruct (str_eqb (url_pathname req) (js "/health")); [done|].
    by apply text_not_rewritten_master.
  - intros out Hm%str_eqb_neq Hp Hstatus Hbody.
    by destruct (Hproxy out Hp Hm Hbody) as [E|[E _]].
  - repeat split; vm_compute; reflexivity.
  - repeat split; vm_compute; reflexivity.
Qed.
